(** * Directory aggregator for AWS IAM Identity Center: listing and join logic

    Shallow embedding of [aws_idc_list_user_permissions/list_utils.py] and the
    properties of its listing, enrichment and aggregation functions.

    The remote service (the boto3 client) is an external collaborator.  It is
    modelled as a record of operations over an abstract service state [S], so
    that every statement below holds for any service behaviour, including one
    that answers the same request differently on consecutive calls.

    Dictionaries are modelled as finite maps, that is by their contents.
    botocore parses every response into dictionaries of its own, so the only
    dictionary that the module updates in place,
    [permission_set_lookup[permission_set]], is reachable through the lookup
    alone; the update is modelled as an update of the lookup's entry. *)

From stdpp Require Import gmap strings list fin_maps pretty.

#[local] Set Warnings "-clear-no-such-hyp".

Open Scope string_scope.

(** ** Python values *)

(** The JSON-like values boto3 hands back.  Dictionaries returned by the
    service have string keys.  Floats and datetimes are left out: no function
    of the module inspects a field's payload except through truthiness and
    hashing, which are defined below for every constructor. *)
#[local] Set Warnings "-register-all".
Inductive value : Type :=
  | VNone
  | VBool (b : bool)
  | VInt (z : Z)
  | VStr (s : string)
  | VList (l : list value)
  | VDict (d : gmap string value).

(** A service record (an account, a user, an assignment, ...). *)
Abbreviation record := (gmap string value).

(** Python truthiness, the meaning of [not x] and [if x]. *)
Definition truthy (v : value) : bool :=
  match v with
  | VNone => false
  | VBool b => b
  | VInt z => negb (Z.eqb z 0)
  | VStr s => negb (String.eqb s "")
  | VList l => match l with [] => false | _ :: _ => true end
  | VDict d => negb (Nat.eqb (size d) 0)
  end.

(** ** Exceptions and outcomes *)

Inductive exn : Type :=
  | ResourceNotFoundException         (* client.exceptions.ResourceNotFoundException *)
  | OtherError (name : string)        (* any other exception raised by a remote call *)
  | KeyError (key : string)           (* d[k] with k missing *)
  | TypeError (msg : string).         (* unhashable dictionary key *)

Inductive outcome (A : Type) : Type :=
  | Return (a : A)
  | Raise (e : exn).
Arguments Return {A} a.
Arguments Raise {A} e.

(** ** Dictionary keys *)

(** Keys of a Python [dict] up to Python's key equality: [True == 1] and
    [False == 0] hash and compare equal, so booleans are integer keys. *)
Inductive pykey : Type :=
  | KNone
  | KInt (z : Z)
  | KStr (s : string).

#[global] Instance pykey_eq_dec : EqDecision pykey.
Proof. solve_decision. Defined.

#[global] Instance pykey_countable : Countable pykey.
Proof.
  refine (inj_countable'
    (fun k => match k with
              | KNone => inl ()
              | KInt z => inr (inl z)
              | KStr s => inr (inr s)
              end)
    (fun x => match x with
              | inl _ => KNone
              | inr (inl z) => KInt z
              | inr (inr s) => KStr s
              end) _).
  intros []; reflexivity.
Defined.

(** [hash(v)] as needed to use [v] as a dictionary key: lists and
    dictionaries are unhashable. *)
Definition to_key (v : value) : outcome pykey :=
  match v with
  | VNone => Return KNone
  | VBool b => Return (KInt (if b then 1 else 0))
  | VInt z => Return (KInt z)
  | VStr s => Return (KStr s)
  | VList _ => Raise (TypeError "unhashable type: 'list'")
  | VDict _ => Raise (TypeError "unhashable type: 'dict'")
  end.

(** ** The remote service *)

(** Keyword arguments of a remote call. *)
Abbreviation kwargs := (list (string * string)).

(** One response page of a paginated listing: the output keys of the
    operation with the items listed under each. *)
Abbreviation page A := (gmap string (list A)).

(** What iterating [paginator.paginate(...)] produces: at least one
    response, then further ones while the service hands out a continuation
    token, unless a request raises. *)
Inductive page_stream (A : Type) : Type :=
  | LastPage (p : page A)
  | MorePages (p : page A) (rest : page_stream A)
  | Failed (e : exn).
Arguments LastPage {A} p.
Arguments MorePages {A} p rest.
Arguments Failed {A} e.

(** The operations of the boto3 clients that the module calls.  Each one
    takes the service state and gives back the response (or the exception)
    and the next state.  Listings are typed by what the service lists:
    [ListPermissionSets] lists ARNs, every other listing lists records. *)
Record client (S : Type) : Type := Client {
  paginate : string -> kwargs -> S -> page_stream record * S;
  paginate_arns : string -> kwargs -> S -> page_stream string * S;
  describe_permission_set : kwargs -> S -> outcome (gmap string record) * S;
  get_inline_policy_for_permission_set :
    kwargs -> S -> outcome (gmap string value) * S;
  get_permissions_boundary_for_permission_set :
    kwargs -> S -> outcome (gmap string value) * S
}.
Arguments Client {S}.
Arguments paginate {S}.
Arguments paginate_arns {S}.
Arguments describe_permission_set {S}.
Arguments get_inline_policy_for_permission_set {S}.
Arguments get_permissions_boundary_for_permission_set {S}.

(** ** The effect monad: service state, standard output, exceptions *)

Definition world (S : Type) : Type := S * list string.

Definition M (S A : Type) : Type := world S -> outcome A * world S.

Definition ret {S A} (a : A) : M S A := fun w => (Return a, w).

Definition raise {S A} (e : exn) : M S A := fun w => (Raise e, w).

Definition bind {S A B} (m : M S A) (k : A -> M S B) : M S B :=
  fun w =>
    match m w with
    | (Return a, w') => k a w'
    | (Raise e, w') => (Raise e, w')
    end.

Notation "x <- m ;; k" := (bind m (fun x => k))
  (at level 100, m at next level, right associativity,
   format "'[v' x  <-  m  ;;  '/' k ']'").
Notation "m ;;; k" := (bind m (fun _ => k))
  (at level 100, right associativity).

Definition lift {S A} (o : outcome A) : M S A := fun w => (o, w).

(** A remote call: runs on the service component of the world. *)
Definition call {S A} (f : S -> outcome A * S) : M S A :=
  fun w => let '(r, s') := f w.1 in (r, (s', w.2)).

(** [print(line)] *)
Definition print {S} (line : string) : M S unit :=
  fun w => (Return (), (w.1, (w.2 ++ [line])%list)).

(** [try: body except client.exceptions.ResourceNotFoundException: handler] *)
Definition try_except_not_found {S A} (body : M S A) (handler : M S A) : M S A :=
  fun w =>
    match body w with
    | (Raise ResourceNotFoundException, w') => handler w'
    | r => r
    end.

(** [d[k]] on a dictionary with string keys. *)
Definition subscript {A} (d : gmap string A) (k : string) : outcome A :=
  match d !! k with
  | Some a => Return a
  | None => Raise (KeyError k)
  end.

(** ** Pagination *)

(** Adding one page to the accumulated result: lists under the same output
    key are extended. *)
Definition extend_result {A} (acc p : page A) : page A :=
  union_with (fun l1 l2 => Some (l1 ++ l2)%list) acc p.

Fixpoint drain {A} (st : page_stream A) (acc : page A) : outcome (page A) :=
  match st with
  | LastPage p => Return (extend_result acc p)
  | MorePages p rest => drain rest (extend_result acc p)
  | Failed e => Raise e
  end.

(** [PageIterator.build_full_result()]: iterate over all pages, merging. *)
Definition build_full_result {A} (st : page_stream A) : outcome (page A) :=
  drain st ∅.

(** [paginator.paginate(...).build_full_result()[key]], for the paginator
    [pg] of one operation. *)
Definition paginate_all {S A} (pg : S -> page_stream A * S) (key : string)
    : M S (list A) :=
  fun w =>
    let '(st, s') := pg w.1 in
    match build_full_result st with
    | Return full => (subscript full key, (s', w.2))
    | Raise e => (Raise e, (s', w.2))
    end.

(** ** The listers *)

Definition list_instances {S} (c : client S) : M S (list record) :=
  instances <- paginate_all (paginate c "list_instances" []) "Instances" ;;
  ret instances.

(** [item[key]] used as a dictionary key. *)
Definition item_key (key : string) (item : record) : outcome pykey :=
  match subscript item key with
  | Return v => to_key v
  | Raise e => Raise e
  end.

(** [{item[key]: item for item in items}], filling [acc] from left to
    right; a later item replaces an earlier one under the same key. *)
Fixpoint dict_by (key : string) (items : list record) (acc : gmap pykey record)
    : outcome (gmap pykey record) :=
  match items with
  | [] => Return acc
  | item :: rest =>
      match item_key key item with
      | Return k => dict_by key rest (<[k := item]> acc)
      | Raise e => Raise e
      end
  end.

Definition list_accounts {S} (c : client S) : M S (gmap pykey record) :=
  print "Looking up Accounts in your Organization..." ;;;
  accounts <- paginate_all (paginate c "list_accounts" []) "Accounts" ;;
  account_lookup <- lift (dict_by "Id" accounts ∅) ;;
  print ("Total Accounts in Organization: " +:+ pretty (length accounts)) ;;;
  ret account_lookup.

Definition list_users {S} (c : client S) (identity_store_id : string)
    : M S (gmap pykey record) :=
  print ("Looking up users in Identity store: " +:+ identity_store_id) ;;;
  users <- paginate_all
             (paginate c "list_users" [("IdentityStoreId", identity_store_id)])
             "Users" ;;
  user_lookup <- lift (dict_by "UserId" users ∅) ;;
  print ("Total Users in Identity store " +:+ identity_store_id +:+ " : "
         +:+ pretty (length users)) ;;;
  ret user_lookup.

Definition list_groups {S} (c : client S) (identity_store_id : string)
    : M S (list record) :=
  groups <- paginate_all
              (paginate c "list_groups" [("IdentityStoreId", identity_store_id)])
              "Groups" ;;
  ret groups.

Definition list_permission_sets {S} (c : client S) (instance_arn : string)
    : M S (list string) :=
  permission_sets <- paginate_all
                       (paginate_arns c "list_permission_sets"
                          [("InstanceArn", instance_arn)])
                       "PermissionSets" ;;
  print ("Total permission sets found in Organization: "
         +:+ pretty (length permission_sets)) ;;;
  ret permission_sets.

(** [dict(assignment, OriginalPrincipalId=user_id)]: a new dictionary with
    the entries of [assignment] and the keyword entry set last. *)
Definition with_original_principal (user_id : string) (assignment : record)
    : record :=
  <["OriginalPrincipalId" := VStr user_id]> assignment.

Definition list_user_assignments {S} (c : client S)
    (user_id instance_arn : string) : M S (list record) :=
  user_assignments <- paginate_all
                        (paginate c "list_account_assignments_for_principal"
                           [("InstanceArn", instance_arn);
                            ("PrincipalId", user_id);
                            ("PrincipalType", "USER")])
                        "AccountAssignments" ;;
  let result := map (with_original_principal user_id) user_assignments in
  ret result.

Definition list_managed_policy_permission_set {S} (c : client S)
    (permission_set_arn instance_arn : string) : M S (list record) :=
  managed_policies <- paginate_all
                        (paginate c "list_managed_policies_in_permission_set"
                           [("InstanceArn", instance_arn);
                            ("PermissionSetArn", permission_set_arn)])
                        "AttachedManagedPolicies" ;;
  ret managed_policies.

(** ** The permission-set aggregator *)

(** [lookup[k][field] = v]: the dictionary stored under [k] is updated in
    place, so the change is seen through [lookup]. *)
Definition setitem_at (lookup : gmap string record) (k field : string)
    (v : value) : outcome (gmap string record) :=
  match lookup !! k with
  | Some d => Return (<[k := <[field := v]> d]> lookup)
  | None => Raise (KeyError k)
  end.

(** [call(...)[key]] for a single-response operation. *)
Definition call_key {S A} (f : S -> outcome (gmap string A) * S) (key : string)
    : M S A :=
  response <- call f ;;
  lift (subscript response key).

(** One iteration of the loop body of [describe_permissions_sets]. *)
Definition describe_one {S} (c : client S) (instance_arn : string)
    (permission_set : string) (permission_set_lookup : gmap string record)
    : M S (gmap string record) :=
  let kw := [("InstanceArn", instance_arn);
             ("PermissionSetArn", permission_set)] in
  permission_set_description <-
    call_key (describe_permission_set c kw) "PermissionSet" ;;
  let permission_set_lookup :=
    <[permission_set := permission_set_description]> permission_set_lookup in
  permission_set_inline_policy <-
    call_key (get_inline_policy_for_permission_set c kw) "InlinePolicy" ;;
  permission_set_lookup <-
    lift (setitem_at permission_set_lookup permission_set "inline_policy"
            permission_set_inline_policy) ;;
  permission_set_permission_boundary <-
    try_except_not_found
      (call_key (get_permissions_boundary_for_permission_set c kw)
         "PermissionsBoundary")
      (ret (VBool false)) ;;
  permission_set_lookup <-
    (if negb (truthy permission_set_permission_boundary)
     then lift (setitem_at permission_set_lookup permission_set
                  "permission_boundary" permission_set_permission_boundary)
     else ret permission_set_lookup) ;;
  managed_policies <-
    list_managed_policy_permission_set c permission_set instance_arn ;;
  lift (setitem_at permission_set_lookup permission_set "managed_policies "
          (VList (map VDict managed_policies))).

(** The [for permission_set in permission_sets] loop. *)
Fixpoint describe_loop {S} (c : client S) (instance_arn : string)
    (permission_sets : list string) (permission_set_lookup : gmap string record)
    : M S (gmap string record) :=
  match permission_sets with
  | [] => ret permission_set_lookup
  | permission_set :: rest =>
      permission_set_lookup <-
        describe_one c instance_arn permission_set permission_set_lookup ;;
      describe_loop c instance_arn rest permission_set_lookup
  end.

Definition describe_permissions_sets {S} (c : client S)
    (permission_sets : list string) (instance_arn : string)
    : M S (gmap string record) :=
  print ("Looking up permission set details for "
         +:+ pretty (length permission_sets) +:+ " permission sets") ;;;
  describe_loop c instance_arn permission_sets ∅.

(** * Specification vocabulary *)

(** ** Page streams *)

(** The pages of a stream that completes, and the exception of one that
    does not. *)
Fixpoint stream_pages {A} (st : page_stream A) : option (list (page A)) :=
  match st with
  | LastPage p => Some [p]
  | MorePages p rest => cons p <$> stream_pages rest
  | Failed _ => None
  end.

Fixpoint stream_error {A} (st : page_stream A) : option exn :=
  match st with
  | LastPage _ => None
  | MorePages _ rest => stream_error rest
  | Failed e => Some e
  end.

(** The service, asked in state [s], answers the listing [pg] with pages
    that carry the item lists [itemss] under [key], in this order. *)
Definition serves {S A} (pg : S -> page_stream A * S) (s : S) (key : string)
    (itemss : list (list A)) : Prop :=
  exists pgs, stream_pages (pg s).1 = Some pgs /\
              Forall2 (fun p items => p !! key = Some items) pgs itemss.

(** Everything the service lists for one operation when asked in state
    [s]: the outcome of draining its page stream. *)
Definition full_listing {S A} (pg : S -> page_stream A * S) (key : string)
    (s : S) : outcome (list A) :=
  match build_full_result (pg s).1 with
  | Return full => subscript full key
  | Raise e => Raise e
  end.

(** [n] pages of [k] items each. *)
Definition pages_of_size {A} (n k : nat) (itemss : list (list A)) : Prop :=
  length itemss = n /\ Forall (fun items => length items = k) itemss.

(** ** Mappings by identifier *)

#[global] Instance exn_eq_dec : EqDecision exn.
Proof. solve_decision. Defined.

#[global] Instance outcome_eq_dec {A} `{EqDecision A} : EqDecision (outcome A).
Proof. solve_decision. Defined.

(** The dictionary keys of the items, in order. *)
Definition keys_of (key : string) (items : list record) : list pykey :=
  omap (fun item => match item_key key item with
                    | Return k => Some k
                    | Raise _ => None
                    end) items.

(** What "last record wins, one entry per identifier" means for a mapping
    [m] built from [items]. *)
Definition last_wins (key : string) (items : list record)
    (m : gmap pykey record) : Prop :=
  (forall k, m !! k =
     last (filter (fun u => item_key key u = Return k) items)) /\
  size m = length (remove_dups (keys_of key items)) /\
  length (keys_of key items) = length items.

(** ** Iterations of the aggregator *)

(** Keyword arguments of the per-permission-set calls. *)
Abbreviation ps_kwargs instance_arn permission_set :=
  [("InstanceArn", instance_arn); ("PermissionSetArn", permission_set)].

(** The [try ... except] around the boundary call, on the service state. *)
Definition boundary_lookup {S} (c : client S) (kw : kwargs) (s : S)
    : outcome value * S :=
  match get_permissions_boundary_for_permission_set c kw s with
  | (Return resp, s') => (subscript resp "PermissionsBoundary", s')
  | (Raise ResourceNotFoundException, s') => (Return (VBool false), s')
  | (Raise e, s') => (Raise e, s')
  end.

(** The record left in the lookup by an iteration that fetched description
    [d], inline policy [ip], boundary [pb] and managed policies [mp]. *)
Definition enriched (d : record) (ip pb : value) (mp : list record) : record :=
  <["managed_policies " := VList (map VDict mp)]>
    (if negb (truthy pb)
     then <["permission_boundary" := pb]> (<["inline_policy" := ip]> d)
     else <["inline_policy" := ip]> d).

(** An iteration for [permission_set] that starts with the service in state
    [s], completes, leaves record [r] and the service in state [s']. *)
Definition iteration {S} (c : client S) (instance_arn permission_set : string)
    (s : S) (r : record) (s' : S) : Prop :=
  exists resp d s1 iresp ip s2 pb s3 mp,
    describe_permission_set c (ps_kwargs instance_arn permission_set) s
      = (Return resp, s1) /\
    resp !! "PermissionSet" = Some d /\
    get_inline_policy_for_permission_set c
      (ps_kwargs instance_arn permission_set) s1 = (Return iresp, s2) /\
    iresp !! "InlinePolicy" = Some ip /\
    boundary_lookup c (ps_kwargs instance_arn permission_set) s2
      = (Return pb, s3) /\
    full_listing
      (paginate c "list_managed_policies_in_permission_set"
         (ps_kwargs instance_arn permission_set))
      "AttachedManagedPolicies" s3 = Return mp /\
    s' = (paginate c "list_managed_policies_in_permission_set"
            (ps_kwargs instance_arn permission_set) s3).2 /\
    r = enriched d ip pb mp.

(** An iteration for [permission_set] in which a remote call fails with
    [e], the permission-boundary "not found" case excepted. *)
Inductive iteration_fails {S} (c : client S)
    (instance_arn permission_set : string) (s : S) (e : exn) : Prop :=
  | fails_describe s1 :
      describe_permission_set c (ps_kwargs instance_arn permission_set) s
        = (Raise e, s1) ->
      iteration_fails c instance_arn permission_set s e
  | fails_inline_policy resp d s1 s2 :
      describe_permission_set c (ps_kwargs instance_arn permission_set) s
        = (Return resp, s1) ->
      resp !! "PermissionSet" = Some d ->
      get_inline_policy_for_permission_set c
        (ps_kwargs instance_arn permission_set) s1 = (Raise e, s2) ->
      iteration_fails c instance_arn permission_set s e
  | fails_boundary resp d s1 iresp ip s2 s3 :
      describe_permission_set c (ps_kwargs instance_arn permission_set) s
        = (Return resp, s1) ->
      resp !! "PermissionSet" = Some d ->
      get_inline_policy_for_permission_set c
        (ps_kwargs instance_arn permission_set) s1 = (Return iresp, s2) ->
      iresp !! "InlinePolicy" = Some ip ->
      get_permissions_boundary_for_permission_set c
        (ps_kwargs instance_arn permission_set) s2 = (Raise e, s3) ->
      e <> ResourceNotFoundException ->
      iteration_fails c instance_arn permission_set s e
  | fails_managed_policies resp d s1 iresp ip s2 pb s3 :
      describe_permission_set c (ps_kwargs instance_arn permission_set) s
        = (Return resp, s1) ->
      resp !! "PermissionSet" = Some d ->
      get_inline_policy_for_permission_set c
        (ps_kwargs instance_arn permission_set) s1 = (Return iresp, s2) ->
      iresp !! "InlinePolicy" = Some ip ->
      boundary_lookup c (ps_kwargs instance_arn permission_set) s2
        = (Return pb, s3) ->
      stream_error
        (paginate c "list_managed_policies_in_permission_set"
           (ps_kwargs instance_arn permission_set) s3).1 = Some e ->
      iteration_fails c instance_arn permission_set s e.

(** Completed iterations for the permission sets [pss] in order, from
    lookup [lookup] and service state [s] to [lookup'] and [s']. *)
Inductive processed {S} (c : client S) (instance_arn : string)
    : list string -> S -> gmap string record -> gmap string record -> S -> Prop :=
  | processed_nil s lookup : processed c instance_arn [] s lookup lookup s
  | processed_cons ps pss s r s1 lookup lookup' s' :
      iteration c instance_arn ps s r s1 ->
      processed c instance_arn pss s1 (<[ps := r]> lookup) lookup' s' ->
      processed c instance_arn (ps :: pss) s lookup lookup' s'.

(** All remote calls made for the permission sets [pss] succeed, whatever
    the state of the service; for the permissions boundary, "not found"
    counts as success. *)
Definition remote_calls_succeed {S} (c : client S) (instance_arn : string)
    (pss : list string) : Prop :=
  forall ps s, ps ∈ pss ->
    (exists resp d s',
       describe_permission_set c (ps_kwargs instance_arn ps) s
         = (Return resp, s') /\
       resp !! "PermissionSet" = Some d) /\
    (exists iresp ip s',
       get_inline_policy_for_permission_set c (ps_kwargs instance_arn ps) s
         = (Return iresp, s') /\
       iresp !! "InlinePolicy" = Some ip) /\
    ((exists s',
        get_permissions_boundary_for_permission_set c
          (ps_kwargs instance_arn ps) s
          = (Raise ResourceNotFoundException, s')) \/
     (exists resp v s',
        get_permissions_boundary_for_permission_set c
          (ps_kwargs instance_arn ps) s = (Return resp, s') /\
        resp !! "PermissionsBoundary" = Some v)) /\
    (exists mp,
       full_listing
         (paginate c "list_managed_policies_in_permission_set"
            (ps_kwargs instance_arn ps))
         "AttachedManagedPolicies" s = Return mp).

(** The boundary call for [ps] raises "resource not found". *)
Definition boundary_not_found {S} (c : client S) (instance_arn ps : string)
    : Prop :=
  forall s, exists s',
    get_permissions_boundary_for_permission_set c (ps_kwargs instance_arn ps) s
      = (Raise ResourceNotFoundException, s').

(** The boundary call for [ps] returns a boundary object (a truthy value). *)
Definition boundary_present {S} (c : client S) (instance_arn ps : string)
    : Prop :=
  forall s, exists resp v s',
    get_permissions_boundary_for_permission_set c (ps_kwargs instance_arn ps) s
      = (Return resp, s') /\
    resp !! "PermissionsBoundary" = Some v /\ truthy v = true.

(** The permission-set descriptions of the service have no field named
    [permission_boundary] (the service's PermissionSet structure has none). *)
Definition descriptions_lack_boundary {S} (c : client S) : Prop :=
  forall kw s resp s' d,
    describe_permission_set c kw s = (Return resp, s') ->
    resp !! "PermissionSet" = Some d ->
    d !! "permission_boundary" = None.

(** [v] is the [permission_boundary] field of a description that the
    service returned. *)
Definition from_description {S} (c : client S) (v : value) : Prop :=
  exists kw s resp s' d,
    describe_permission_set c kw s = (Return resp, s') /\
    resp !! "PermissionSet" = Some d /\
    d !! "permission_boundary" = Some v.

(** ** Sample services *)

Fixpoint kw_get (kw : kwargs) (name : string) : string :=
  match kw with
  | [] => ""
  | (k, v) :: rest => if String.eqb k name then v else kw_get rest name
  end.

Definition account_a : record :=
  list_to_map [("Id", VStr "111111111111"); ("Name", VStr "prod")].
Definition account_b : record :=
  list_to_map [("Id", VStr "222222222222"); ("Name", VStr "dev")].
Definition account_a_renamed : record :=
  list_to_map [("Id", VStr "111111111111"); ("Name", VStr "prod-old")].

Definition user_alice : record :=
  list_to_map [("UserId", VStr "u-123"); ("UserName", VStr "alice")].
Definition user_bob : record :=
  list_to_map [("UserId", VStr "u-456"); ("UserName", VStr "bob")].
Definition user_alice_again : record :=
  list_to_map [("UserId", VStr "u-123"); ("UserName", VStr "alice2")].

Definition group_admins : record :=
  list_to_map [("GroupId", VStr "g-9"); ("DisplayName", VStr "admins")].
Definition group_devs : record :=
  list_to_map [("GroupId", VStr "g-7"); ("DisplayName", VStr "devs")].

(** A direct assignment, one provisioned through a group, and one that
    already carries an [OriginalPrincipalId] naming the group. *)
Definition assignment_direct : record :=
  list_to_map [("AccountId", VStr "111111111111");
               ("PermissionSetArn", VStr "arn:A");
               ("PrincipalId", VStr "u-123");
               ("PrincipalType", VStr "USER")].
Definition assignment_via_group : record :=
  list_to_map [("AccountId", VStr "222222222222");
               ("PermissionSetArn", VStr "arn:B");
               ("PrincipalId", VStr "g-9");
               ("PrincipalType", VStr "GROUP")].
Definition assignment_tagged : record :=
  list_to_map [("AccountId", VStr "222222222222");
               ("PermissionSetArn", VStr "arn:A");
               ("PrincipalId", VStr "g-9");
               ("PrincipalType", VStr "GROUP");
               ("OriginalPrincipalId", VStr "g-9")].

Definition policy_readonly : record :=
  list_to_map [("Name", VStr "ReadOnlyAccess");
               ("Arn", VStr "arn:aws:iam::aws:policy/ReadOnlyAccess")].

Definition boundary_policy : value :=
  VDict (list_to_map
    [("ManagedPolicyArn", VStr "arn:aws:iam::aws:policy/PowerUserAccess")]).

Definition description_of (arn : string) : record :=
  list_to_map [("PermissionSetArn", VStr arn); ("Name", VStr "access")].

(** The sample service counts the requests it has served.  Listings come
    in two pages; ["arn:A"] has no permissions boundary, every other
    permission set has one. *)
Definition sample_paginate (op : string) (kw : kwargs) (n : nat)
    : page_stream record * nat :=
  if String.eqb op "list_accounts" then
    (MorePages {["Accounts" := [account_a]]}
       (LastPage {["Accounts" := [account_b]]}), n + 2)
  else if String.eqb op "list_users" then
    (MorePages {["Users" := [user_alice; user_bob]]}
       (LastPage {["Users" := [user_alice_again]]}), n + 2)
  else if String.eqb op "list_groups" then
    (MorePages {["Groups" := [group_admins]]}
       (LastPage {["Groups" := [group_devs]]}), n + 2)
  else if String.eqb op "list_instances" then
    (LastPage {["Instances" := []]}, n + 1)
  else if String.eqb op "list_account_assignments_for_principal" then
    (MorePages {["AccountAssignments" := [assignment_direct]]}
       (LastPage {["AccountAssignments" :=
                     [assignment_via_group; assignment_tagged]]}), n + 2)
  else if String.eqb op "list_managed_policies_in_permission_set" then
    (if String.eqb (kw_get kw "PermissionSetArn") "arn:A"
     then LastPage {["AttachedManagedPolicies" := []]}
     else LastPage {["AttachedManagedPolicies" := [policy_readonly]]}, n + 1)
  else (Failed (OtherError "OperationNotPageableError"), n).

Definition sample_paginate_arns (op : string) (kw : kwargs) (n : nat)
    : page_stream string * nat :=
  (MorePages {["PermissionSets" := ["arn:A"]]}
     (LastPage {["PermissionSets" := ["arn:B"]]}), n + 2).

Definition sample_describe (kw : kwargs) (n : nat)
    : outcome (gmap string record) * nat :=
  (Return {["PermissionSet" := description_of (kw_get kw "PermissionSetArn")]},
   n + 1).

Definition sample_inline_policy (kw : kwargs) (n : nat)
    : outcome (gmap string value) * nat :=
  (Return {["InlinePolicy" := VStr ""]}, n + 1).

Definition sample_boundary (kw : kwargs) (n : nat)
    : outcome (gmap string value) * nat :=
  if String.eqb (kw_get kw "PermissionSetArn") "arn:A"
  then (Raise ResourceNotFoundException, n + 1)
  else (Return {["PermissionsBoundary" := boundary_policy]}, n + 1).

Definition sample : client nat :=
  Client sample_paginate sample_paginate_arns sample_describe
    sample_inline_policy sample_boundary.

(** A service whose account listing repeats an identifier: two pages of
    one account each, both with [Id] 111111111111. *)
Definition repeating_paginate (op : string) (kw : kwargs) (n : nat)
    : page_stream record * nat :=
  if String.eqb op "list_accounts" then
    (MorePages {["Accounts" := [account_a]]}
       (LastPage {["Accounts" := [account_a_renamed]]}), n + 2)
  else sample_paginate op kw n.

Definition repeating : client nat :=
  Client repeating_paginate sample_paginate_arns sample_describe
    sample_inline_policy sample_boundary.

(** A service that throttles the second page of the group listing and
    denies access to the permissions boundary of ["arn:B"]. *)
Definition failing_paginate (op : string) (kw : kwargs) (n : nat)
    : page_stream record * nat :=
  if String.eqb op "list_groups" then
    (MorePages {["Groups" := [group_admins]]}
       (Failed (OtherError "ThrottlingException")), n + 2)
  else sample_paginate op kw n.

Definition failing_boundary (kw : kwargs) (n : nat)
    : outcome (gmap string value) * nat :=
  if String.eqb (kw_get kw "PermissionSetArn") "arn:B"
  then (Raise (OtherError "AccessDeniedException"), n + 1)
  else sample_boundary kw n.

Definition failing : client nat :=
  Client failing_paginate sample_paginate_arns sample_describe
    sample_inline_policy failing_boundary.

(** ** Further vocabulary and sample services *)

(** The record [u] has a hashable value under [key]. *)
Definition identified (key : string) (u : record) : Prop :=
  exists k, item_key key u = Return k.

(** The boundary call for [ps] returns the falsy value [v]. *)
Definition boundary_falsy {S} (c : client S) (instance_arn ps : string)
    (v : value) : Prop :=
  forall s, exists resp s',
    get_permissions_boundary_for_permission_set c (ps_kwargs instance_arn ps) s
      = (Return resp, s') /\
    resp !! "PermissionsBoundary" = Some v /\ truthy v = false.

Definition account_nameless : record :=
  list_to_map [("Name", VStr "orphan")].

(** A service that lists an account record without [Id] between two
    complete ones. *)
Definition incomplete_paginate (op : string) (kw : kwargs) (n : nat)
    : page_stream record * nat :=
  if String.eqb op "list_accounts" then
    (LastPage {["Accounts" := [account_a; account_nameless; account_b]]}, n + 1)
  else sample_paginate op kw n.

Definition incomplete : client nat :=
  Client incomplete_paginate sample_paginate_arns sample_describe
    sample_inline_policy sample_boundary.

(** A service whose boundary response for ["arn:B"] has no
    [PermissionsBoundary] key. *)
Definition keyless_boundary (kw : kwargs) (n : nat)
    : outcome (gmap string value) * nat :=
  if String.eqb (kw_get kw "PermissionSetArn") "arn:B"
  then (Return ∅, n + 1)
  else sample_boundary kw n.

Definition keyless : client nat :=
  Client sample_paginate sample_paginate_arns sample_describe
    sample_inline_policy keyless_boundary.

(** A service that answers the boundary call for ["arn:B"] with an empty
    boundary object. *)
Definition empty_boundary (kw : kwargs) (n : nat)
    : outcome (gmap string value) * nat :=
  if String.eqb (kw_get kw "PermissionSetArn") "arn:B"
  then (Return {["PermissionsBoundary" := VDict ∅]}, n + 1)
  else sample_boundary kw n.

Definition unset : client nat :=
  Client sample_paginate sample_paginate_arns sample_describe
    sample_inline_policy empty_boundary.

(** * Properties *)

(** ** Running monadic code *)

Lemma bind_Return {S A B} (m : M S A) (k : A -> M S B) w b w' :
  bind m k w = (Return b, w') ->
  exists a w1, m w = (Return a, w1) /\ k a w1 = (Return b, w').
Proof.
  unfold bind. destruct (m w) as [[a|e] w1]; [eauto | discriminate].
Qed.

Lemma bind_run {S A B} (m : M S A) (k : A -> M S B) w a w1 :
  m w = (Return a, w1) -> bind m k w = k a w1.
Proof. unfold bind. intros ->. reflexivity. Qed.

Lemma lift_Return {S A} (o : outcome A) (w w' : world S) a :
  lift o w = (Return a, w') -> o = Return a /\ w' = w.
Proof. unfold lift. intros [= -> ->]. auto. Qed.

Lemma subscript_Return {A} (d : gmap string A) k a :
  subscript d k = Return a <-> d !! k = Some a.
Proof.
  unfold subscript. destruct (d !! k); split; intros [=]; subst; reflexivity.
Qed.

(** ** Pagination *)

Lemma drain_pages {A} (st : page_stream A) pgs acc :
  stream_pages st = Some pgs ->
  drain st acc = Return (foldl extend_result acc pgs).
Proof.
  revert pgs acc. induction st as [p|p rest IH|e]; intros pgs acc; simpl.
  - intros [= <-]. reflexivity.
  - destruct (stream_pages rest) as [pgs'|]; simpl; [|discriminate].
    intros [= <-]. simpl. apply IH. reflexivity.
  - discriminate.
Qed.

Lemma drain_error {A} (st : page_stream A) e acc :
  stream_error st = Some e -> drain st acc = Raise e.
Proof.
  revert acc. induction st as [p|p rest IH|e']; intros acc; simpl.
  - discriminate.
  - auto.
  - intros [= ->]. reflexivity.
Qed.

Lemma extend_result_lookup {A} (acc p : page A) key :
  extend_result acc p !! key =
    match acc !! key, p !! key with
    | Some l1, Some l2 => Some (l1 ++ l2)%list
    | Some l1, None => Some l1
    | None, o => o
    end.
Proof.
  unfold extend_result. rewrite lookup_union_with.
  destruct (acc !! key), (p !! key); reflexivity.
Qed.

(** Pages that all carry [key]: the merged result lists their items in
    page order after what was accumulated before. *)
Lemma foldl_extend_lookup {A} (pgs : list (page A)) key itemss :
  Forall2 (fun p items => p !! key = Some items) pgs itemss ->
  forall acc l0, acc !! key = Some l0 ->
  foldl extend_result acc pgs !! key = Some (l0 ++ concat itemss)%list.
Proof.
  induction 1 as [|p items pgs itemss Hp _ IH]; intros acc l0 Hacc; simpl.
  - rewrite app_nil_r. exact Hacc.
  - rewrite (IH _ (l0 ++ items)%list).
    + rewrite <- app_assoc. reflexivity.
    + rewrite extend_result_lookup, Hacc, Hp. reflexivity.
Qed.

Lemma foldl_extend_lookup_empty {A} (pgs : list (page A)) key itemss :
  pgs <> [] ->
  Forall2 (fun p items => p !! key = Some items) pgs itemss ->
  foldl extend_result ∅ pgs !! key = Some (concat itemss).
Proof.
  intros Hne H. destruct H as [|p items pgs itemss Hp H]; [congruence|].
  simpl. apply (foldl_extend_lookup _ _ _ H).
  rewrite extend_result_lookup, lookup_empty. exact Hp.
Qed.

Lemma stream_pages_nonempty {A} (st : page_stream A) pgs :
  stream_pages st = Some pgs -> pgs <> [].
Proof.
  destruct st as [p|p rest|e]; simpl.
  - intros [= <-]. discriminate.
  - destruct (stream_pages rest); simpl; [|discriminate].
    intros [= <-]. discriminate.
  - discriminate.
Qed.

Lemma paginate_all_serves {S A} (pg : S -> page_stream A * S) key w itemss :
  serves pg w.1 key itemss ->
  paginate_all pg key w = (Return (concat itemss), ((pg w.1).2, w.2)).
Proof.
  intros (pgs & Hpgs & Hall). unfold paginate_all.
  destruct (pg w.1) as [st s'] eqn:Hpg. simpl in *.
  unfold build_full_result. rewrite (drain_pages _ _ _ Hpgs).
  apply stream_pages_nonempty in Hpgs.
  pose proof (foldl_extend_lookup_empty _ _ _ Hpgs Hall) as Hl.
  apply subscript_Return in Hl. rewrite Hl. reflexivity.
Qed.

Lemma paginate_all_error {S A} (pg : S -> page_stream A * S) key w e :
  stream_error (pg w.1).1 = Some e ->
  paginate_all pg key w = (Raise e, ((pg w.1).2, w.2)).
Proof.
  intros He. unfold paginate_all. destruct (pg w.1) as [st s']. simpl in *.
  unfold build_full_result. rewrite (drain_error _ _ _ He). reflexivity.
Qed.

(** ** Assignment lister *)

Lemma list_user_assignments_Return {S} (c : client S) user_id instance_arn
    w result w' :
  list_user_assignments c user_id instance_arn w = (Return result, w') ->
  exists user_assignments,
    paginate_all
      (paginate c "list_account_assignments_for_principal"
         [("InstanceArn", instance_arn); ("PrincipalId", user_id);
          ("PrincipalType", "USER")])
      "AccountAssignments" w = (Return user_assignments, w') /\
    result = map (with_original_principal user_id) user_assignments.
Proof.
  unfold list_user_assignments. intros H.
  apply bind_Return in H as (l & w1 & Hl & [= <- <-]). eauto.
Qed.

(** C1: every record returned by [list_user_assignments] carries
    [OriginalPrincipalId] equal to the queried [user_id], whatever the
    service put into the record (a group as principal included). *)
Theorem original_principal_is_queried_user {S} (c : client S)
    (user_id instance_arn : string) (w w' : world S) (result : list record) :
  list_user_assignments c user_id instance_arn w = (Return result, w') ->
  Forall (fun r => r !! "OriginalPrincipalId" = Some (VStr user_id)) result.
Proof.
  intros H. apply list_user_assignments_Return in H as (l & _ & ->).
  apply Forall_fmap, Forall_forall. intros a _. simpl.
  unfold with_original_principal. apply lookup_insert_eq.
Qed.

Lemma original_principal_is_queried_user_witness :
  Forall (fun r => r !! "OriginalPrincipalId" = Some (VStr "u-123"))
    (map (with_original_principal "u-123")
       [assignment_direct; assignment_via_group; assignment_tagged]).
Proof.
  apply (original_principal_is_queried_user sample "u-123" "arn:instance"
           (0, []) (2, [])).
  reflexivity.
Defined.

(** C8: apart from the added [OriginalPrincipalId], every returned record
    has exactly the fields and values of the service's assignment record at
    the same position; [PrincipalId] stays what the service returned. *)
Theorem assignment_fields_preserved {S} (c : client S)
    (user_id instance_arn : string) (w w' : world S) (result : list record) :
  list_user_assignments c user_id instance_arn w = (Return result, w') ->
  exists user_assignments,
    paginate_all
      (paginate c "list_account_assignments_for_principal"
         [("InstanceArn", instance_arn); ("PrincipalId", user_id);
          ("PrincipalType", "USER")])
      "AccountAssignments" w = (Return user_assignments, w') /\
    length result = length user_assignments /\
    forall i a, user_assignments !! i = Some a ->
      exists r, result !! i = Some r /\
        (forall field, field <> "OriginalPrincipalId" ->
                       r !! field = a !! field) /\
        r !! "PrincipalId" = a !! "PrincipalId".
Proof.
  intros H. apply list_user_assignments_Return in H as (l & Hl & ->).
  exists l. split; [exact Hl|]. split; [apply length_map|].
  intros i a Ha. exists (with_original_principal user_id a).
  split; [rewrite list_lookup_fmap, Ha; reflexivity|].
  unfold with_original_principal.
  split; [intros field Hne|]; apply lookup_insert_ne; congruence.
Qed.

Lemma assignment_fields_preserved_witness :
  exists user_assignments,
    paginate_all
      (paginate sample "list_account_assignments_for_principal"
         [("InstanceArn", "arn:instance"); ("PrincipalId", "u-123");
          ("PrincipalType", "USER")])
      "AccountAssignments" (0, []) = (Return user_assignments, (2, [])) /\
    length (map (with_original_principal "u-123")
              [assignment_direct; assignment_via_group; assignment_tagged])
      = length user_assignments /\
    forall i a, user_assignments !! i = Some a ->
      exists r,
        map (with_original_principal "u-123")
          [assignment_direct; assignment_via_group; assignment_tagged] !! i
          = Some r /\
        (forall field, field <> "OriginalPrincipalId" ->
                       r !! field = a !! field) /\
        r !! "PrincipalId" = a !! "PrincipalId".
Proof.
  apply (assignment_fields_preserved sample "u-123" "arn:instance").
  reflexivity.
Defined.

(** C10: a service record that already has an [OriginalPrincipalId] gets it
    replaced by the queried [user_id] in the returned record. *)
Theorem existing_original_principal_overwritten {S} (c : client S)
    (user_id instance_arn : string) (w w' : world S) (result : list record) :
  list_user_assignments c user_id instance_arn w = (Return result, w') ->
  exists user_assignments,
    paginate_all
      (paginate c "list_account_assignments_for_principal"
         [("InstanceArn", instance_arn); ("PrincipalId", user_id);
          ("PrincipalType", "USER")])
      "AccountAssignments" w = (Return user_assignments, w') /\
    forall i a v, user_assignments !! i = Some a ->
      a !! "OriginalPrincipalId" = Some v ->
      exists r, result !! i = Some r /\
                r = <["OriginalPrincipalId" := VStr user_id]> a /\
                r !! "OriginalPrincipalId" = Some (VStr user_id).
Proof.
  intros H. apply list_user_assignments_Return in H as (l & Hl & ->).
  exists l. split; [exact Hl|]. intros i a v Ha _.
  exists (with_original_principal user_id a).
  split; [rewrite list_lookup_fmap, Ha; reflexivity|].
  split; [reflexivity|apply lookup_insert_eq].
Qed.

Lemma existing_original_principal_overwritten_witness :
  assignment_tagged !! "OriginalPrincipalId" = Some (VStr "g-9") /\
  exists r,
    map (with_original_principal "u-123")
      [assignment_direct; assignment_via_group; assignment_tagged] !! 2
      = Some r /\
    r !! "OriginalPrincipalId" = Some (VStr "u-123").
Proof.
  split; [reflexivity|].
  destruct (existing_original_principal_overwritten sample "u-123"
              "arn:instance" (0, []) (2, [])
              (map (with_original_principal "u-123")
                 [assignment_direct; assignment_via_group; assignment_tagged]))
    as (l & Hl & Hover); [reflexivity|].
  assert (paginate_all
            (paginate sample "list_account_assignments_for_principal"
               [("InstanceArn", "arn:instance"); ("PrincipalId", "u-123");
                ("PrincipalType", "USER")])
            "AccountAssignments" (0, [])
          = (Return [assignment_direct; assignment_via_group;
                     assignment_tagged], (2, []))) as Hrun
    by (reflexivity).
  rewrite Hrun in Hl. injection Hl as <-.
  destruct (Hover 2 assignment_tagged (VStr "g-9")) as (r & Hr & _ & Hopi);
    [reflexivity | reflexivity |].
  exists r. split; assumption.
Defined.

(** ** Mapping listers *)

Lemma paginate_all_full_listing {S A} (pg : S -> page_stream A * S) key w :
  paginate_all pg key w = (full_listing pg key w.1, ((pg w.1).2, w.2)).
Proof.
  unfold paginate_all, full_listing. destruct (pg w.1) as [st s']. simpl.
  destruct (build_full_result st); reflexivity.
Qed.

Lemma full_listing_serves {S A} (pg : S -> page_stream A * S) key s itemss :
  serves pg s key itemss -> full_listing pg key s = Return (concat itemss).
Proof.
  intros H. pose proof (paginate_all_serves pg key (s, []) itemss H) as Hp.
  rewrite paginate_all_full_listing in Hp. injection Hp as Hp. exact Hp.
Qed.

Lemma full_listing_error {S A} (pg : S -> page_stream A * S) key s e :
  stream_error (pg s).1 = Some e -> full_listing pg key s = Raise e.
Proof.
  intros H. pose proof (paginate_all_error pg key (s, []) e H) as Hp.
  rewrite paginate_all_full_listing in Hp. injection Hp as Hp. exact Hp.
Qed.

Lemma list_accounts_run {S} (c : client S) w :
  (list_accounts c w).1 =
    match full_listing (paginate c "list_accounts" []) "Accounts" w.1 with
    | Return accounts => dict_by "Id" accounts ∅
    | Raise e => Raise e
    end.
Proof.
  unfold list_accounts, bind, print, lift, ret.
  rewrite paginate_all_full_listing. simpl.
  destruct (full_listing _ _ _) as [accounts|e]; [|reflexivity].
  destruct (dict_by _ _ _); reflexivity.
Qed.

Lemma list_users_run {S} (c : client S) identity_store_id w :
  (list_users c identity_store_id w).1 =
    match full_listing
            (paginate c "list_users" [("IdentityStoreId", identity_store_id)])
            "Users" w.1 with
    | Return users => dict_by "UserId" users ∅
    | Raise e => Raise e
    end.
Proof.
  unfold list_users, bind, print, lift, ret.
  rewrite paginate_all_full_listing. simpl.
  destruct (full_listing _ _ _) as [users|e]; [|reflexivity].
  destruct (dict_by _ _ _); reflexivity.
Qed.

Lemma list_accounts_Return {S} (c : client S) w account_lookup w' :
  list_accounts c w = (Return account_lookup, w') ->
  exists accounts,
    full_listing (paginate c "list_accounts" []) "Accounts" w.1
      = Return accounts /\
    dict_by "Id" accounts ∅ = Return account_lookup.
Proof.
  intros H. pose proof (list_accounts_run c w) as Hrun.
  rewrite H in Hrun. simpl in Hrun.
  destruct (full_listing _ _ _) as [accounts|e]; [eauto|discriminate].
Qed.

Lemma list_users_Return {S} (c : client S) identity_store_id w user_lookup w' :
  list_users c identity_store_id w = (Return user_lookup, w') ->
  exists users,
    full_listing
      (paginate c "list_users" [("IdentityStoreId", identity_store_id)])
      "Users" w.1 = Return users /\
    dict_by "UserId" users ∅ = Return user_lookup.
Proof.
  intros H. pose proof (list_users_run c identity_store_id w) as Hrun.
  rewrite H in Hrun. simpl in Hrun.
  destruct (full_listing _ _ _) as [users|e]; [eauto|discriminate].
Qed.

Lemma item_key_Return key item k :
  item_key key item = Return k <->
  exists v, item !! key = Some v /\ to_key v = Return k.
Proof.
  unfold item_key, subscript. destruct (item !! key) as [v|]; split.
  - eauto.
  - intros (v' & [= <-] & H). exact H.
  - discriminate.
  - intros (v' & [=] & _).
Qed.

Lemma dict_by_keyed key items : forall acc m,
  dict_by key items acc = Return m ->
  (forall k r, acc !! k = Some r -> item_key key r = Return k) ->
  forall k r, m !! k = Some r -> item_key key r = Return k.
Proof.
  induction items as [|item rest IH]; intros acc m; simpl.
  - intros [= <-]. auto.
  - destruct (item_key key item) as [k0|e] eqn:Hk; [|discriminate].
    intros Hm Hacc. apply (IH _ _ Hm). intros k r.
    rewrite lookup_insert. case_decide; [intros [= <-]; subst|]; auto.
Qed.

(** C5: in the mappings returned by [list_users] and [list_accounts] every
    key is the identifier ([UserId], respectively [Id]) of the record stored
    under it. *)
Theorem lookup_key_is_identifier {S} (c : client S)
    (identity_store_id : string) (w : world S) :
  (forall user_lookup w',
     list_users c identity_store_id w = (Return user_lookup, w') ->
     forall k r, user_lookup !! k = Some r ->
       exists v, r !! "UserId" = Some v /\ to_key v = Return k) /\
  (forall account_lookup w',
     list_accounts c w = (Return account_lookup, w') ->
     forall k r, account_lookup !! k = Some r ->
       exists v, r !! "Id" = Some v /\ to_key v = Return k).
Proof.
  split.
  - intros m w' H k r Hr.
    apply list_users_Return in H as (users & _ & Hd).
    apply item_key_Return. revert k r Hr. apply (dict_by_keyed _ _ _ _ Hd).
    intros k r. rewrite lookup_empty. discriminate.
  - intros m w' H k r Hr.
    apply list_accounts_Return in H as (accounts & _ & Hd).
    apply item_key_Return. revert k r Hr. apply (dict_by_keyed _ _ _ _ Hd).
    intros k r. rewrite lookup_empty. discriminate.
Qed.

Lemma lookup_key_is_identifier_witness :
  (exists v, user_alice_again !! "UserId" = Some v /\
             to_key v = Return (KStr "u-123")) /\
  (exists v, account_b !! "Id" = Some v /\
             to_key v = Return (KStr "222222222222")).
Proof.
  destruct (lookup_key_is_identifier sample "d-1234567890" (0, []))
    as [Husers Haccounts].
  split.
  - apply (Husers
             (<[KStr "u-123" := user_alice_again]>
                (<[KStr "u-456" := user_bob]> ∅))
             (2, ["Looking up users in Identity store: d-1234567890";
                  "Total Users in Identity store d-1234567890 : 3"])).
    + reflexivity.
    + reflexivity.
  - apply (Haccounts
             (<[KStr "111111111111" := account_a]>
                (<[KStr "222222222222" := account_b]> ∅))
             (2, ["Looking up Accounts in your Organization...";
                  "Total Accounts in Organization: 2"])).
    + reflexivity.
    + reflexivity.
Defined.

Lemma dict_by_lookup key items : forall acc m,
  dict_by key items acc = Return m ->
  forall k,
    m !! k = match last (filter (fun u => item_key key u = Return k) items) with
             | Some r => Some r
             | None => acc !! k
             end.
Proof.
  induction items as [|item rest IH]; intros acc m; simpl.
  - intros [= <-] k. reflexivity.
  - destruct (item_key key item) as [k0|e] eqn:Hk; [|discriminate].
    intros Hm k. rewrite (IH _ _ Hm k).
    destruct (decide (k0 = k)) as [->|Hne].
    + rewrite filter_cons_True by exact Hk. rewrite last_cons.
      destruct (last _); [reflexivity|apply lookup_insert_eq].
    + rewrite filter_cons_False by congruence.
      destruct (last _); [reflexivity|apply lookup_insert_ne; exact Hne].
Qed.

Lemma dict_by_dom key items : forall acc m,
  dict_by key items acc = Return m ->
  dom m = list_to_set (keys_of key items) ∪ dom acc /\
  length (keys_of key items) = length items.
Proof.
  induction items as [|item rest IH]; intros acc m; simpl.
  - intros [= <-]. split; [set_solver|reflexivity].
  - unfold keys_of. simpl.
    destruct (item_key key item) as [k0|e] eqn:Hk; [|discriminate].
    intros Hm. destruct (IH _ _ Hm) as [Hdom Hlen]. simpl.
    split; [|f_equal; exact Hlen].
    rewrite Hdom, dom_insert_L. fold (keys_of key rest). set_solver.
Qed.

Lemma size_list_to_set_remove_dups (ks : list pykey) :
  size (list_to_set ks : gset pykey) = length (remove_dups ks).
Proof.
  rewrite <- (size_list_to_set (C:=gset pykey) (remove_dups ks))
    by apply NoDup_remove_dups.
  f_equal. apply set_eq. intros k.
  rewrite !elem_of_list_to_set, elem_of_remove_dups. reflexivity.
Qed.

Lemma dict_by_last_wins key items m :
  dict_by key items ∅ = Return m -> last_wins key items m.
Proof.
  intros H. split; [|split].
  - intros k. rewrite (dict_by_lookup _ _ _ _ H k), lookup_empty.
    destruct (last _); reflexivity.
  - destruct (dict_by_dom _ _ _ _ H) as [Hdom _].
    rewrite <- size_list_to_set_remove_dups, <- (size_dom (D:=gset pykey)), Hdom.
    f_equal. set_solver.
  - apply (dict_by_dom _ _ _ _ H).
Qed.

(** C9: when several listed users (accounts) share an identifier, the mapping
    holds one entry for it, the last such record in service order; its size
    is the number of distinct identifiers. *)
Theorem one_entry_per_identifier {S} (c : client S)
    (identity_store_id : string) (w : world S) :
  (forall user_lookup w',
     list_users c identity_store_id w = (Return user_lookup, w') ->
     exists users,
       full_listing
         (paginate c "list_users" [("IdentityStoreId", identity_store_id)])
         "Users" w.1 = Return users /\
       last_wins "UserId" users user_lookup) /\
  (forall account_lookup w',
     list_accounts c w = (Return account_lookup, w') ->
     exists accounts,
       full_listing (paginate c "list_accounts" []) "Accounts" w.1
         = Return accounts /\
       last_wins "Id" accounts account_lookup).
Proof.
  split.
  - intros m w' H. apply list_users_Return in H as (users & Hl & Hd).
    exists users. split; [exact Hl|]. apply dict_by_last_wins, Hd.
  - intros m w' H. apply list_accounts_Return in H as (accounts & Hl & Hd).
    exists accounts. split; [exact Hl|]. apply dict_by_last_wins, Hd.
Qed.

Lemma one_entry_per_identifier_witness :
  last_wins "UserId" [user_alice; user_bob; user_alice_again]
    (<[KStr "u-123" := user_alice_again]> (<[KStr "u-456" := user_bob]> ∅)) /\
  last_wins "Id" [account_a; account_a_renamed]
    (<[KStr "111111111111" := account_a_renamed]> ∅).
Proof.
  destruct (one_entry_per_identifier sample "d-1234567890" (0, []))
    as [Husers _].
  destruct (one_entry_per_identifier repeating "d-1234567890" (0, []))
    as [_ Haccounts].
  split.
  - destruct (Husers
                (<[KStr "u-123" := user_alice_again]>
                   (<[KStr "u-456" := user_bob]> ∅))
                (2, ["Looking up users in Identity store: d-1234567890";
                     "Total Users in Identity store d-1234567890 : 3"]))
      as (users & Hl & Hlast); [reflexivity|].
    assert (full_listing
              (paginate sample "list_users"
                 [("IdentityStoreId", "d-1234567890")]) "Users" 0
            = Return [user_alice; user_bob; user_alice_again]) as Hrun
      by (reflexivity).
    cbn [fst] in Hl. rewrite Hrun in Hl. injection Hl as <-. exact Hlast.
  - destruct (Haccounts
                (<[KStr "111111111111" := account_a_renamed]> ∅)
                (2, ["Looking up Accounts in your Organization...";
                     "Total Accounts in Organization: 2"]))
      as (accounts & Hl & Hlast); [reflexivity|].
    assert (full_listing (paginate repeating "list_accounts" []) "Accounts" 0
            = Return [account_a; account_a_renamed]) as Hrun
      by (reflexivity).
    cbn [fst] in Hl. rewrite Hrun in Hl. injection Hl as <-. exact Hlast.
Defined.

(** ** Draining all pages *)

Lemma pages_of_size_concat {A} n k (itemss : list (list A)) :
  pages_of_size n k itemss -> length (concat itemss) = n * k.
Proof.
  intros [<- Hall]. induction Hall as [|items itemss Hk _ IH]; simpl.
  - reflexivity.
  - rewrite length_app, Hk, IH. reflexivity.
Qed.

Lemma dict_by_size_NoDup key items m :
  dict_by key items ∅ = Return m ->
  NoDup (keys_of key items) ->
  size m = length items.
Proof.
  intros H Hnd. destruct (dict_by_dom _ _ _ _ H) as [Hdom Hlen].
  rewrite <- Hlen, <- (size_list_to_set (C:=gset pykey) _ Hnd).
  rewrite <- (size_dom (D:=gset pykey)), Hdom. f_equal. set_solver.
Qed.

Lemma list_instances_run {S} (c : client S) w :
  (list_instances c w).1 =
    full_listing (paginate c "list_instances" []) "Instances" w.1.
Proof.
  unfold list_instances, bind, ret. rewrite paginate_all_full_listing.
  destruct (full_listing _ _ _); reflexivity.
Qed.

Lemma list_groups_run {S} (c : client S) identity_store_id w :
  (list_groups c identity_store_id w).1 =
    full_listing
      (paginate c "list_groups" [("IdentityStoreId", identity_store_id)])
      "Groups" w.1.
Proof.
  unfold list_groups, bind, ret. rewrite paginate_all_full_listing.
  destruct (full_listing _ _ _); reflexivity.
Qed.

Lemma list_permission_sets_run {S} (c : client S) instance_arn w :
  (list_permission_sets c instance_arn w).1 =
    full_listing
      (paginate_arns c "list_permission_sets" [("InstanceArn", instance_arn)])
      "PermissionSets" w.1.
Proof.
  unfold list_permission_sets, bind, ret, print.
  rewrite paginate_all_full_listing.
  destruct (full_listing _ _ _); reflexivity.
Qed.

Lemma list_managed_policy_permission_set_run {S} (c : client S)
    permission_set_arn instance_arn w :
  list_managed_policy_permission_set c permission_set_arn instance_arn w =
    (full_listing
       (paginate c "list_managed_policies_in_permission_set"
          [("InstanceArn", instance_arn);
           ("PermissionSetArn", permission_set_arn)])
       "AttachedManagedPolicies" w.1,
     ((paginate c "list_managed_policies_in_permission_set"
         [("InstanceArn", instance_arn);
          ("PermissionSetArn", permission_set_arn)] w.1).2, w.2)).
Proof.
  unfold list_managed_policy_permission_set, bind, ret.
  rewrite paginate_all_full_listing.
  destruct (full_listing _ _ _); reflexivity.
Qed.

Lemma list_user_assignments_run {S} (c : client S) user_id instance_arn w :
  (list_user_assignments c user_id instance_arn w).1 =
    match full_listing
            (paginate c "list_account_assignments_for_principal"
               [("InstanceArn", instance_arn); ("PrincipalId", user_id);
                ("PrincipalType", "USER")])
            "AccountAssignments" w.1 with
    | Return user_assignments =>
        Return (map (with_original_principal user_id) user_assignments)
    | Raise e => Raise e
    end.
Proof.
  unfold list_user_assignments, bind, ret. rewrite paginate_all_full_listing.
  destruct (full_listing _ _ _); reflexivity.
Qed.

(** C6 as stated, on the account lister: against the service [repeating],
    which answers with 2 pages of 1 account each, [list_accounts] returns a
    mapping with 1 entry, not 2 * 1. *)
Lemma mapping_lister_merges_repeated_identifiers :
  serves (paginate repeating "list_accounts" []) 0 "Accounts"
    [[account_a]; [account_a_renamed]] /\
  pages_of_size 2 1 [[account_a]; [account_a_renamed]] /\
  exists account_lookup w',
    list_accounts repeating (0, []) = (Return account_lookup, w') /\
    size account_lookup = 1 /\
    size account_lookup <> 2 * 1.
Proof.
  split; [|split].
  - exists [{["Accounts" := [account_a]]};
            {["Accounts" := [account_a_renamed]]}].
    split; [reflexivity|].
    repeat constructor; apply lookup_singleton_eq.
  - split; [reflexivity|]. repeat constructor.
  - exists {[KStr "111111111111" := account_a_renamed]},
           (2, ["Looking up Accounts in your Organization...";
                "Total Accounts in Organization: 2"]).
    split; [reflexivity|]. rewrite map_size_singleton.
    split; [reflexivity|discriminate].
Qed.

(** C6, amended: every lister consumes all pages in order.  The listers that
    return a sequence return the concatenation of the pages, n * k items for
    n pages of k items; [list_user_assignments] returns the same n * k records
    with [OriginalPrincipalId] added.  The listers that return a mapping build
    it from that concatenation; it has n * k entries when the identifiers are
    pairwise distinct. *)
Theorem listers_drain_all_pages {S} (c : client S)
    (identity_store_id instance_arn user_id permission_set_arn : string)
    (w : world S) (n k : nat) :
  (forall itemss, pages_of_size n k itemss ->
     serves (paginate c "list_instances" []) w.1 "Instances" itemss ->
     (list_instances c w).1 = Return (concat itemss) /\
     length (concat itemss) = n * k) /\
  (forall itemss, pages_of_size n k itemss ->
     serves (paginate c "list_groups" [("IdentityStoreId", identity_store_id)])
       w.1 "Groups" itemss ->
     (list_groups c identity_store_id w).1 = Return (concat itemss) /\
     length (concat itemss) = n * k) /\
  (forall arnss, pages_of_size n k arnss ->
     serves (paginate_arns c "list_permission_sets"
               [("InstanceArn", instance_arn)])
       w.1 "PermissionSets" arnss ->
     (list_permission_sets c instance_arn w).1 = Return (concat arnss) /\
     length (concat arnss) = n * k) /\
  (forall itemss, pages_of_size n k itemss ->
     serves (paginate c "list_managed_policies_in_permission_set"
               [("InstanceArn", instance_arn);
                ("PermissionSetArn", permission_set_arn)])
       w.1 "AttachedManagedPolicies" itemss ->
     (list_managed_policy_permission_set c permission_set_arn instance_arn w).1
       = Return (concat itemss) /\
     length (concat itemss) = n * k) /\
  (forall itemss, pages_of_size n k itemss ->
     serves (paginate c "list_account_assignments_for_principal"
               [("InstanceArn", instance_arn); ("PrincipalId", user_id);
                ("PrincipalType", "USER")])
       w.1 "AccountAssignments" itemss ->
     (list_user_assignments c user_id instance_arn w).1
       = Return (map (with_original_principal user_id) (concat itemss)) /\
     length (map (with_original_principal user_id) (concat itemss)) = n * k) /\
  (forall itemss, pages_of_size n k itemss ->
     serves (paginate c "list_accounts" []) w.1 "Accounts" itemss ->
     (list_accounts c w).1 = dict_by "Id" (concat itemss) ∅ /\
     length (concat itemss) = n * k /\
     (NoDup (keys_of "Id" (concat itemss)) ->
      forall account_lookup,
        dict_by "Id" (concat itemss) ∅ = Return account_lookup ->
        size account_lookup = n * k)) /\
  (forall itemss, pages_of_size n k itemss ->
     serves (paginate c "list_users" [("IdentityStoreId", identity_store_id)])
       w.1 "Users" itemss ->
     (list_users c identity_store_id w).1 = dict_by "UserId" (concat itemss) ∅ /\
     length (concat itemss) = n * k /\
     (NoDup (keys_of "UserId" (concat itemss)) ->
      forall user_lookup,
        dict_by "UserId" (concat itemss) ∅ = Return user_lookup ->
        size user_lookup = n * k)).
Proof.
  repeat apply conj; intros itemss Hsize Hserves.
  - rewrite list_instances_run, (full_listing_serves _ _ _ _ Hserves).
    split; [reflexivity|apply pages_of_size_concat, Hsize].
  - rewrite list_groups_run, (full_listing_serves _ _ _ _ Hserves).
    split; [reflexivity|apply pages_of_size_concat, Hsize].
  - rewrite list_permission_sets_run, (full_listing_serves _ _ _ _ Hserves).
    split; [reflexivity|apply pages_of_size_concat, Hsize].
  - rewrite list_managed_policy_permission_set_run. cbn [fst].
    rewrite (full_listing_serves _ _ _ _ Hserves).
    split; [reflexivity|apply pages_of_size_concat, Hsize].
  - rewrite list_user_assignments_run, (full_listing_serves _ _ _ _ Hserves).
    split; [reflexivity|].
    rewrite length_map. apply pages_of_size_concat, Hsize.
  - rewrite list_accounts_run, (full_listing_serves _ _ _ _ Hserves).
    split; [reflexivity|]. split; [apply pages_of_size_concat, Hsize|].
    intros Hnd m Hm. rewrite (dict_by_size_NoDup _ _ _ Hm Hnd).
    apply pages_of_size_concat, Hsize.
  - rewrite list_users_run, (full_listing_serves _ _ _ _ Hserves).
    split; [reflexivity|]. split; [apply pages_of_size_concat, Hsize|].
    intros Hnd m Hm. rewrite (dict_by_size_NoDup _ _ _ Hm Hnd).
    apply pages_of_size_concat, Hsize.
Qed.

Lemma listers_drain_all_pages_witness :
  (list_groups sample "d-1234567890" (0, [])).1
    = Return [group_admins; group_devs] /\
  (list_accounts sample (0, [])).1
    = dict_by "Id" [account_a; account_b] ∅ /\
  (forall account_lookup,
     dict_by "Id" [account_a; account_b] ∅ = Return account_lookup ->
     size account_lookup = 2 * 1).
Proof.
  destruct (listers_drain_all_pages sample "d-1234567890" "arn:instance"
              "u-123" "arn:A" (0, []) 2 1)
    as (_ & Hgroups & _ & _ & _ & Haccounts & _).
  split; [|split].
  - apply (Hgroups [[group_admins]; [group_devs]]).
    + split; [reflexivity|]. repeat constructor.
    + exists [{["Groups" := [group_admins]]}; {["Groups" := [group_devs]]}].
      split; [reflexivity|]. repeat constructor; apply lookup_singleton_eq.
  - apply (Haccounts [[account_a]; [account_b]]).
    + split; [reflexivity|]. repeat constructor.
    + exists [{["Accounts" := [account_a]]}; {["Accounts" := [account_b]]}].
      split; [reflexivity|]. repeat constructor; apply lookup_singleton_eq.
  - destruct (Haccounts [[account_a]; [account_b]]) as (_ & _ & Hsize).
    + split; [reflexivity|]. repeat constructor.
    + exists [{["Accounts" := [account_a]]}; {["Accounts" := [account_b]]}].
      split; [reflexivity|]. repeat constructor; apply lookup_singleton_eq.
    + apply Hsize. simpl.
      apply NoDup_cons. split; [|apply NoDup_singleton].
      intros Hin%list_elem_of_singleton. discriminate.
Defined.

(** ** The aggregator, one iteration *)

Section aggregator.

Context {S : Type} (c : client S) (instance_arn : string).

Lemma call_key_run {A} (f : S -> outcome (gmap string A) * S) key w :
  call_key f key w =
    match f w.1 with
    | (Return resp, s') => (subscript resp key, (s', w.2))
    | (Raise e, s') => (Raise e, (s', w.2))
    end.
Proof.
  unfold call_key, bind, call, lift. destruct (f w.1) as [[resp|e] s'];
    reflexivity.
Qed.

Lemma try_boundary_run kw w :
  try_except_not_found
    (call_key (get_permissions_boundary_for_permission_set c kw)
       "PermissionsBoundary")
    (ret (VBool false)) w
  = ((boundary_lookup c kw w.1).1, ((boundary_lookup c kw w.1).2, w.2)).
Proof.
  unfold try_except_not_found, boundary_lookup, ret. rewrite call_key_run.
  destruct (get_permissions_boundary_for_permission_set c kw w.1)
    as [[resp|e] s']; simpl.
  - unfold subscript. destruct (resp !! "PermissionsBoundary"); reflexivity.
  - destruct e; reflexivity.
Qed.

Lemma setitem_at_fresh (lookup : gmap string record) k d field v :
  setitem_at (<[k := d]> lookup) k field v
    = Return (<[k := <[field := v]> d]> lookup).
Proof.
  unfold setitem_at. rewrite lookup_insert_eq, insert_insert_eq. reflexivity.
Qed.

(** The whole iteration as one case analysis on what the service answers. *)
Lemma describe_one_run ps lookup w :
  describe_one c instance_arn ps lookup w =
    match describe_permission_set c (ps_kwargs instance_arn ps) w.1 with
    | (Raise e, s1) => (Raise e, (s1, w.2))
    | (Return resp, s1) =>
      match resp !! "PermissionSet" with
      | None => (Raise (KeyError "PermissionSet"), (s1, w.2))
      | Some d =>
        match get_inline_policy_for_permission_set c
                (ps_kwargs instance_arn ps) s1 with
        | (Raise e, s2) => (Raise e, (s2, w.2))
        | (Return iresp, s2) =>
          match iresp !! "InlinePolicy" with
          | None => (Raise (KeyError "InlinePolicy"), (s2, w.2))
          | Some ip =>
            match boundary_lookup c (ps_kwargs instance_arn ps) s2 with
            | (Raise e, s3) => (Raise e, (s3, w.2))
            | (Return pb, s3) =>
              match full_listing
                      (paginate c "list_managed_policies_in_permission_set"
                         (ps_kwargs instance_arn ps))
                      "AttachedManagedPolicies" s3 with
              | Return mp =>
                  (Return (<[ps := enriched d ip pb mp]> lookup),
                   ((paginate c "list_managed_policies_in_permission_set"
                       (ps_kwargs instance_arn ps) s3).2, w.2))
              | Raise e =>
                  (Raise e,
                   ((paginate c "list_managed_policies_in_permission_set"
                       (ps_kwargs instance_arn ps) s3).2, w.2))
              end
            end
          end
        end
      end
    end.
Proof.
  unfold describe_one. cbv zeta. unfold bind at 1. rewrite call_key_run.
  destruct (describe_permission_set c _ w.1) as [[resp|e] s1];
    [|reflexivity].
  unfold subscript at 1. destruct (resp !! "PermissionSet") as [d|];
    [|reflexivity].
  unfold bind at 1. rewrite call_key_run. cbn [fst snd].
  destruct (get_inline_policy_for_permission_set c _ s1) as [[iresp|e] s2];
    [|reflexivity].
  unfold subscript at 1. destruct (iresp !! "InlinePolicy") as [ip|];
    [|reflexivity].
  unfold bind at 1. unfold lift at 1. rewrite setitem_at_fresh.
  unfold bind at 1. rewrite try_boundary_run. cbn [fst snd].
  destruct (boundary_lookup c _ s2) as [[pb|e] s3]; [|reflexivity].
  cbn [fst snd]. unfold enriched.
  destruct (negb (truthy pb)).
  - unfold bind at 1. unfold lift at 1. rewrite setitem_at_fresh.
    unfold bind. rewrite list_managed_policy_permission_set_run. cbn [fst snd].
    destruct (full_listing _ _ s3) as [mp|e]; [|reflexivity].
    unfold lift. rewrite setitem_at_fresh. reflexivity.
  - unfold bind at 1. unfold ret at 1.
    unfold bind. rewrite list_managed_policy_permission_set_run. cbn [fst snd].
    destruct (full_listing _ _ s3) as [mp|e]; [|reflexivity].
    unfold lift. rewrite setitem_at_fresh. reflexivity.
Qed.

Lemma describe_one_Return ps lookup w lookup' w' :
  describe_one c instance_arn ps lookup w = (Return lookup', w') <->
  exists r, iteration c instance_arn ps w.1 r w'.1 /\
            lookup' = <[ps := r]> lookup /\ w'.2 = w.2.
Proof.
  rewrite describe_one_run. split.
  - intros H.
    destruct (describe_permission_set c _ w.1) as [[resp|?] s1] eqn:Hd;
      [|discriminate].
    destruct (resp !! "PermissionSet") as [d|] eqn:Hpd; [|discriminate].
    destruct (get_inline_policy_for_permission_set c _ s1)
      as [[iresp|?] s2] eqn:Hi; [|discriminate].
    destruct (iresp !! "InlinePolicy") as [ip|] eqn:Hpi; [|discriminate].
    destruct (boundary_lookup c _ s2) as [[pb|?] s3] eqn:Hb; [|discriminate].
    destruct (full_listing _ _ s3) as [mp|?] eqn:Hm; [|discriminate].
    injection H as <- <-. exists (enriched d ip pb mp).
    split; [|split; reflexivity].
    exists resp, d, s1, iresp, ip, s2, pb, s3, mp. auto 10.
  - intros (r & (resp & d & s1 & iresp & ip & s2 & pb & s3 & mp &
                 Hd & Hpd & Hi & Hpi & Hb & Hm & Hs & ->) & -> & Hout).
    rewrite Hd, Hpd, Hi, Hpi, Hb, Hm, <- Hs, <- Hout.
    destruct w' as [s' out']. reflexivity.
Qed.

Lemma boundary_lookup_error kw s e s' :
  get_permissions_boundary_for_permission_set c kw s = (Raise e, s') ->
  e <> ResourceNotFoundException ->
  boundary_lookup c kw s = (Raise e, s').
Proof.
  unfold boundary_lookup. intros -> Hne. destruct e; congruence.
Qed.

Lemma boundary_lookup_not_found kw s s' :
  get_permissions_boundary_for_permission_set c kw s
    = (Raise ResourceNotFoundException, s') ->
  boundary_lookup c kw s = (Return (VBool false), s').
Proof. unfold boundary_lookup. intros ->. reflexivity. Qed.

Lemma boundary_lookup_value kw s resp v s' :
  get_permissions_boundary_for_permission_set c kw s = (Return resp, s') ->
  resp !! "PermissionsBoundary" = Some v ->
  boundary_lookup c kw s = (Return v, s').
Proof.
  unfold boundary_lookup, subscript. intros -> ->. reflexivity.
Qed.

Lemma describe_one_fails ps lookup w e :
  iteration_fails c instance_arn ps w.1 e ->
  (describe_one c instance_arn ps lookup w).1 = Raise e.
Proof.
  rewrite describe_one_run.
  intros [s1 Hd | resp d s1 s2 Hd Hpd Hi
         | resp d s1 iresp ip s2 s3 Hd Hpd Hi Hpi Hb Hne
         | resp d s1 iresp ip s2 pb s3 Hd Hpd Hi Hpi Hb Hm].
  - rewrite Hd. reflexivity.
  - rewrite Hd, Hpd, Hi. reflexivity.
  - rewrite Hd, Hpd, Hi, Hpi, (boundary_lookup_error _ _ _ _ Hb Hne).
    reflexivity.
  - rewrite Hd, Hpd, Hi, Hpi, Hb, (full_listing_error _ _ _ _ Hm).
    reflexivity.
Qed.

(** ** The aggregator, the loop *)

Lemma describe_loop_Return pss :
  forall lookup w lookup' w',
  describe_loop c instance_arn pss lookup w = (Return lookup', w') <->
  processed c instance_arn pss w.1 lookup lookup' w'.1 /\ w'.2 = w.2.
Proof.
  induction pss as [|ps pss IH]; intros lookup w lookup' w'; simpl.
  - unfold ret. split.
    + intros [= <- <-]. split; [constructor|reflexivity].
    + intros [H Hout]. inversion H; subst.
      destruct w as [s out], w' as [s' out']. simpl in *. congruence.
  - split.
    + intros H. apply bind_Return in H as (l1 & w1 & H1 & H2).
      apply describe_one_Return in H1 as (r & Hit & -> & Hout1).
      apply IH in H2 as [Hp Hout2].
      split; [econstructor; eassumption|congruence].
    + intros [H Hout]. inversion H as [|? ? ? r s1 ? ? ? Hit Hp]; subst.
      rewrite (bind_run _ _ _ (<[ps := r]> lookup) (s1, w.2)).
      * apply IH. split; assumption.
      * apply describe_one_Return. exists r. auto.
Qed.

Lemma describe_loop_app pre pss :
  forall lookup w,
  describe_loop c instance_arn (pre ++ pss) lookup w =
    match describe_loop c instance_arn pre lookup w with
    | (Return lookup1, w1) => describe_loop c instance_arn pss lookup1 w1
    | (Raise e, w1) => (Raise e, w1)
    end.
Proof.
  induction pre as [|ps pre IH]; intros lookup w; simpl.
  - reflexivity.
  - unfold bind. destruct (describe_one c instance_arn ps lookup w)
      as [[l1|e] w1]; [apply IH|reflexivity].
Qed.

Lemma describe_permissions_sets_run pss w :
  describe_permissions_sets c pss instance_arn w =
    describe_loop c instance_arn pss ∅
      (w.1, (w.2 ++ ["Looking up permission set details for "
                     +:+ pretty (length pss) +:+ " permission sets"])%list).
Proof. reflexivity. Qed.

Lemma describe_permissions_sets_Return pss w lookup w' :
  describe_permissions_sets c pss instance_arn w = (Return lookup, w') <->
  processed c instance_arn pss w.1 ∅ lookup w'.1 /\
  w'.2 = (w.2 ++ ["Looking up permission set details for "
                  +:+ pretty (length pss) +:+ " permission sets"])%list.
Proof.
  rewrite describe_permissions_sets_run, describe_loop_Return. reflexivity.
Qed.

(** A property of lookups that every completed iteration preserves holds
    after the loop. *)
Lemma processed_invariant (P : gmap string record -> Prop) pss s lookup lookup' s' :
  processed c instance_arn pss s lookup lookup' s' ->
  (forall ps s0 r s1 l, ps ∈ pss -> iteration c instance_arn ps s0 r s1 ->
                        P l -> P (<[ps := r]> l)) ->
  P lookup -> P lookup'.
Proof.
  induction 1 as [|ps pss s r s1 lookup lookup' s' Hit _ IH]; intros Hstep H0.
  - exact H0.
  - apply IH.
    + intros ps' s0 r' s1' l Hin. apply Hstep. set_solver.
    + apply (Hstep ps s r s1); [set_solver|exact Hit|exact H0].
Qed.

Lemma processed_dom pss s lookup lookup' s' :
  processed c instance_arn pss s lookup lookup' s' ->
  dom lookup' = list_to_set pss ∪ dom lookup.
Proof.
  induction 1 as [|ps pss s r s1 lookup lookup' s' _ _ IH].
  - set_solver.
  - rewrite IH, dom_insert_L. set_solver.
Qed.

(** The loop completes when each of its iterations can. *)
Lemma processed_total pss :
  (forall ps s, ps ∈ pss -> exists r s', iteration c instance_arn ps s r s') ->
  forall s lookup, exists lookup' s',
    processed c instance_arn pss s lookup lookup' s'.
Proof.
  induction pss as [|ps pss IH]; intros Hall s lookup.
  - eexists _, _. constructor.
  - destruct (Hall ps s) as (r & s1 & Hit); [set_solver|].
    destruct (IH (fun ps' s0 Hin => Hall ps' s0 ltac:(set_solver))
                s1 (<[ps := r]> lookup)) as (lookup' & s' & Hp).
    eexists _, _. econstructor; eassumption.
Qed.

End aggregator.

(** ** The aggregator, its claims *)

Lemma enriched_boundary d ip pb mp :
  enriched d ip pb mp !! "permission_boundary" =
    if negb (truthy pb) then Some pb else d !! "permission_boundary".
Proof.
  unfold enriched. rewrite lookup_insert_ne by discriminate.
  destruct (negb (truthy pb)).
  - apply lookup_insert_eq.
  - apply lookup_insert_ne. discriminate.
Qed.

Lemma enriched_inline_policy d ip pb mp :
  enriched d ip pb mp !! "inline_policy" = Some ip.
Proof.
  unfold enriched. rewrite lookup_insert_ne by discriminate.
  destruct (negb (truthy pb)).
  - rewrite lookup_insert_ne by discriminate. apply lookup_insert_eq.
  - apply lookup_insert_eq.
Qed.

Lemma enriched_managed_policies d ip pb mp :
  enriched d ip pb mp !! "managed_policies " = Some (VList (map VDict mp)).
Proof. unfold enriched. apply lookup_insert_eq. Qed.

Lemma remote_calls_succeed_iteration {S} (c : client S) instance_arn pss :
  remote_calls_succeed c instance_arn pss ->
  forall ps s, ps ∈ pss -> exists r s', iteration c instance_arn ps s r s'.
Proof.
  intros Hok ps s Hin.
  destruct (Hok ps s Hin) as ((resp & d & s1 & Hd & Hpd) & _).
  destruct (Hok ps s1 Hin) as (_ & (iresp & ip & s2 & Hi & Hpi) & _).
  destruct (Hok ps s2 Hin) as (_ & _ & Hb & _).
  assert (exists pb s3,
            boundary_lookup c (ps_kwargs instance_arn ps) s2 = (Return pb, s3))
    as (pb & s3 & Hpb).
  { destruct Hb as [(s3 & Hb)|(bresp & v & s3 & Hb & Hv)].
    - eexists _, _. apply boundary_lookup_not_found, Hb.
    - eexists _, _. apply (boundary_lookup_value _ _ _ _ _ _ Hb Hv). }
  destruct (Hok ps s3 Hin) as (_ & _ & _ & (mp & Hm)).
  eexists _, _. exists resp, d, s1, iresp, ip, s2, pb, s3, mp. auto 10.
Qed.

Lemma remote_calls_succeed_returns {S} (c : client S) instance_arn pss w :
  remote_calls_succeed c instance_arn pss ->
  exists lookup w',
    describe_permissions_sets c pss instance_arn w = (Return lookup, w').
Proof.
  intros Hok.
  destruct (processed_total c instance_arn pss
              (remote_calls_succeed_iteration c instance_arn pss Hok) w.1 ∅)
    as (lookup & s' & Hp).
  exists lookup, (s', (w.2 ++ ["Looking up permission set details for "
                               +:+ pretty (length pss)
                               +:+ " permission sets"])%list).
  apply describe_permissions_sets_Return. auto.
Qed.

(** C4: the returned mapping has exactly the input ARNs as keys, and every
    record in it has an [inline_policy] entry and a [managed_policies ] entry
    (trailing space), holding whatever was fetched, empty or not. *)
Theorem lookup_keys_and_entries {S} (c : client S) (pss : list string)
    (instance_arn : string) (w : world S) :
  remote_calls_succeed c instance_arn pss ->
  exists lookup w',
    describe_permissions_sets c pss instance_arn w = (Return lookup, w') /\
    dom lookup = (list_to_set pss : gset string) /\
    forall ps r, lookup !! ps = Some r ->
      exists ip mp,
        r !! "inline_policy" = Some ip /\
        r !! "managed_policies " = Some (VList (map VDict mp)).
Proof.
  intros Hok.
  destruct (remote_calls_succeed_returns c instance_arn pss w Hok)
    as (lookup & w' & Hrun).
  exists lookup, w'. split; [exact Hrun|].
  apply describe_permissions_sets_Return in Hrun as [Hp _].
  split.
  - rewrite (processed_dom _ _ _ _ _ _ _ Hp). set_solver.
  - apply (processed_invariant c instance_arn
             (fun l => forall ps r, l !! ps = Some r ->
                exists ip mp,
                  r !! "inline_policy" = Some ip /\
                  r !! "managed_policies " = Some (VList (map VDict mp)))
             _ _ _ _ _ Hp).
    + intros ps s0 r s1 l _ Hit Hl ps' r'.
      rewrite lookup_insert. case_decide; [|apply Hl].
      intros [= <-].
      destruct Hit as (resp & d & s1' & iresp & ip & s2 & pb & s3 & mp & Hit).
      destruct Hit as (_ & _ & _ & _ & _ & _ & _ & ->).
      exists ip, mp.
      split; [apply enriched_inline_policy|apply enriched_managed_policies].
    + intros ps r. rewrite lookup_empty. discriminate.
Qed.

Lemma sample_succeeds instance_arn pss :
  remote_calls_succeed sample instance_arn pss.
Proof.
  intros ps s _. repeat split.
  - eexists _, _, _. split; [reflexivity|apply lookup_singleton_eq].
  - eexists _, _, _. split; [reflexivity|apply lookup_singleton_eq].
  - cbn. unfold sample_boundary. cbn. destruct (String.eqb ps "arn:A").
    + left. eexists. reflexivity.
    + right. eexists _, _, _. split; [reflexivity|apply lookup_singleton_eq].
  - unfold full_listing. cbn.
    destruct (String.eqb ps "arn:A"); eexists; reflexivity.
Qed.

Lemma lookup_keys_and_entries_witness :
  exists lookup w',
    describe_permissions_sets sample ["arn:A"; "arn:B"] "arn:instance" (0, [])
      = (Return lookup, w') /\
    dom lookup = (list_to_set ["arn:A"; "arn:B"] : gset string) /\
    forall ps r, lookup !! ps = Some r ->
      exists ip mp,
        r !! "inline_policy" = Some ip /\
        r !! "managed_policies " = Some (VList (map VDict mp)).
Proof.
  apply (lookup_keys_and_entries sample ["arn:A"; "arn:B"] "arn:instance"
           (0, [])).
  apply sample_succeeds.
Defined.

(** C3: when the boundary call raises "resource not found" for a permission
    set, [describe_permissions_sets] does not raise; it goes on with that
    permission set and the following ones, and the record of that permission
    set has [permission_boundary] set to [False]. *)
Theorem boundary_not_found_is_recovered {S} (c : client S)
    (pss : list string) (instance_arn : string) (w : world S) :
  remote_calls_succeed c instance_arn pss ->
  exists lookup w',
    describe_permissions_sets c pss instance_arn w = (Return lookup, w') /\
    dom lookup = (list_to_set pss : gset string) /\
    forall ps, ps ∈ pss -> boundary_not_found c instance_arn ps ->
      exists r, lookup !! ps = Some r /\
                r !! "permission_boundary" = Some (VBool false).
Proof.
  intros Hok.
  destruct (remote_calls_succeed_returns c instance_arn pss w Hok)
    as (lookup & w' & Hrun).
  exists lookup, w'. split; [exact Hrun|].
  apply describe_permissions_sets_Return in Hrun as [Hp _].
  assert (dom lookup = (list_to_set pss : gset string)) as Hdom
    by (rewrite (processed_dom _ _ _ _ _ _ _ Hp); set_solver).
  split; [exact Hdom|]. intros ps0 Hin Hnf.
  assert (ps0 ∈ dom lookup) as [r Hr]%elem_of_dom by set_solver.
  exists r. split; [exact Hr|]. revert r Hr.
  apply (processed_invariant c instance_arn
           (fun l => forall r, l !! ps0 = Some r ->
              r !! "permission_boundary" = Some (VBool false))
           _ _ _ _ _ Hp).
  - intros ps s0 r s1 l _ Hit Hl r'.
    rewrite lookup_insert. case_decide as Heq; [|apply Hl].
    intros [= <-]. subst ps.
    destruct Hit as (resp & d & s1' & iresp & ip & s2 & pb & s3 & mp & Hit).
    destruct Hit as (_ & _ & _ & _ & Hb & _ & _ & ->).
    destruct (Hnf s2) as (s3' & Hraise).
    rewrite (boundary_lookup_not_found _ _ _ _ Hraise) in Hb.
    injection Hb as <- _. rewrite enriched_boundary. reflexivity.
  - intros r. rewrite lookup_empty. discriminate.
Qed.

Lemma sample_boundary_not_found instance_arn :
  boundary_not_found sample instance_arn "arn:A".
Proof. intros s. eexists. reflexivity. Qed.

Lemma boundary_not_found_is_recovered_witness :
  exists lookup w',
    describe_permissions_sets sample ["arn:A"; "arn:B"] "arn:instance" (0, [])
      = (Return lookup, w') /\
    exists r, lookup !! "arn:A" = Some r /\
              r !! "permission_boundary" = Some (VBool false).
Proof.
  destruct (boundary_not_found_is_recovered sample ["arn:A"; "arn:B"]
              "arn:instance" (0, []))
    as (lookup & w' & Hrun & _ & Hfalse).
  - apply sample_succeeds.
  - exists lookup, w'. split; [exact Hrun|].
    apply Hfalse; [constructor|apply sample_boundary_not_found].
Defined.

(** C2: [describe_permissions_sets] writes [permission_boundary] only when
    the fetched boundary is falsy.  A boundary object returned by the service
    is not stored: with descriptions that have no such field of their own,
    the key is then absent, and whenever the key is present its value is
    falsy. *)
Theorem boundary_written_only_when_falsy {S} (c : client S)
    (pss : list string) (instance_arn : string) (w w' : world S)
    (lookup : gmap string record) :
  describe_permissions_sets c pss instance_arn w = (Return lookup, w') ->
  (forall ps r v, lookup !! ps = Some r ->
     r !! "permission_boundary" = Some v ->
     truthy v = false \/ from_description c v) /\
  (descriptions_lack_boundary c ->
     (forall ps r v, lookup !! ps = Some r ->
        r !! "permission_boundary" = Some v -> truthy v = false) /\
     (forall ps r, boundary_present c instance_arn ps ->
        lookup !! ps = Some r -> r !! "permission_boundary" = None)).
Proof.
  intros Hrun. apply describe_permissions_sets_Return in Hrun as [Hp _].
  assert (forall ps r v, lookup !! ps = Some r ->
            r !! "permission_boundary" = Some v ->
            truthy v = false \/ from_description c v) as Hwritten.
  { apply (processed_invariant c instance_arn
             (fun l => forall ps r v, l !! ps = Some r ->
                r !! "permission_boundary" = Some v ->
                truthy v = false \/ from_description c v)
             _ _ _ _ _ Hp).
    - intros ps s0 r s1 l _ Hit Hl ps' r' v.
      rewrite lookup_insert. case_decide; [|apply Hl].
      intros [= <-].
      destruct Hit as (resp & d & s1' & iresp & ip & s2 & pb & s3 & mp & Hit).
      destruct Hit as (Hd & Hpd & _ & _ & _ & _ & _ & ->).
      rewrite enriched_boundary.
      destruct (truthy pb) eqn:Hpb; simpl.
      + intros Hv. right. exists (ps_kwargs instance_arn ps), s0, resp, s1', d.
        auto.
      + intros [= <-]. left. exact Hpb.
    - intros ps r v. rewrite lookup_empty. discriminate. }
  split; [exact Hwritten|]. intros Hshape. split.
  - intros ps r v Hr Hv.
    destruct (Hwritten ps r v Hr Hv) as [Hf|(kw & s & resp & s' & d & Hd & Hpd & Hdv)];
      [exact Hf|].
    rewrite (Hshape _ _ _ _ _ Hd Hpd) in Hdv. discriminate.
  - intros ps0 r Hpresent. revert r.
    apply (processed_invariant c instance_arn
             (fun l => forall r, l !! ps0 = Some r ->
                r !! "permission_boundary" = None)
             _ _ _ _ _ Hp).
    + intros ps s0 r s1 l _ Hit Hl r'.
      rewrite lookup_insert. case_decide as Heq; [|apply Hl].
      intros [= <-]. subst ps.
      destruct Hit as (resp & d & s1' & iresp & ip & s2 & pb & s3 & mp & Hit).
      destruct Hit as (Hd & Hpd & _ & _ & Hb & _ & _ & ->).
      destruct (Hpresent s2) as (bresp & v & s3' & Hcall & Hv & Htruthy).
      rewrite (boundary_lookup_value _ _ _ _ _ _ Hcall Hv) in Hb.
      injection Hb as <- _.
      rewrite enriched_boundary, Htruthy. simpl.
      apply (Hshape _ _ _ _ _ Hd Hpd).
    + intros r. rewrite lookup_empty. discriminate.
Qed.

Lemma sample_descriptions_lack_boundary : descriptions_lack_boundary sample.
Proof.
  intros kw s resp s' d [= <- _] Hd.
  rewrite lookup_singleton_eq in Hd. injection Hd as <-. reflexivity.
Qed.

Lemma sample_boundary_present instance_arn :
  boundary_present sample instance_arn "arn:B".
Proof.
  intros s. eexists _, _, _. split; [reflexivity|].
  split; [apply lookup_singleton_eq|reflexivity].
Qed.

Lemma boundary_written_only_when_falsy_witness :
  exists lookup w',
    describe_permissions_sets sample ["arn:A"; "arn:B"] "arn:instance" (0, [])
      = (Return lookup, w') /\
    (forall ps r v, lookup !! ps = Some r ->
       r !! "permission_boundary" = Some v -> truthy v = false) /\
    (forall r, lookup !! "arn:B" = Some r ->
       r !! "permission_boundary" = None).
Proof.
  eexists _, _. split; [reflexivity|].
  destruct (boundary_written_only_when_falsy sample ["arn:A"; "arn:B"]
              "arn:instance" (0, []) _ _ eq_refl) as [_ Hshape].
  destruct (Hshape sample_descriptions_lack_boundary) as [Hfalsy Habsent].
  split; [exact Hfalsy|].
  intros r. apply Habsent, sample_boundary_present.
Defined.

Lemma bind_fst_Raise {S A B} (m : M S A) (k : A -> M S B) w e :
  (m w).1 = Raise e -> (bind m k w).1 = Raise e.
Proof.
  unfold bind. destruct (m w) as [[a|e'] w1]; simpl;
    [discriminate|intros [= ->]; reflexivity].
Qed.

(** C7: an error of a remote call, the permission-boundary "not found" case
    excepted, comes out of the function that made the call: a lister raises
    the error of its page stream, and [describe_permissions_sets] raises the
    error of the first failing call of an iteration, whatever was collected
    in the iterations before. *)
Theorem remote_errors_propagate {S} (c : client S)
    (identity_store_id instance_arn user_id permission_set_arn : string)
    (w : world S) (e : exn) :
  (stream_error (paginate c "list_instances" [] w.1).1 = Some e ->
   (list_instances c w).1 = Raise e) /\
  (stream_error (paginate c "list_accounts" [] w.1).1 = Some e ->
   (list_accounts c w).1 = Raise e) /\
  (stream_error
     (paginate c "list_users" [("IdentityStoreId", identity_store_id)] w.1).1
     = Some e ->
   (list_users c identity_store_id w).1 = Raise e) /\
  (stream_error
     (paginate c "list_groups" [("IdentityStoreId", identity_store_id)] w.1).1
     = Some e ->
   (list_groups c identity_store_id w).1 = Raise e) /\
  (stream_error
     (paginate_arns c "list_permission_sets"
        [("InstanceArn", instance_arn)] w.1).1 = Some e ->
   (list_permission_sets c instance_arn w).1 = Raise e) /\
  (stream_error
     (paginate c "list_account_assignments_for_principal"
        [("InstanceArn", instance_arn); ("PrincipalId", user_id);
         ("PrincipalType", "USER")] w.1).1 = Some e ->
   (list_user_assignments c user_id instance_arn w).1 = Raise e) /\
  (stream_error
     (paginate c "list_managed_policies_in_permission_set"
        (ps_kwargs instance_arn permission_set_arn) w.1).1 = Some e ->
   (list_managed_policy_permission_set c permission_set_arn instance_arn w).1
     = Raise e) /\
  (forall pre ps rest lookup1 s1,
     processed c instance_arn pre w.1 ∅ lookup1 s1 ->
     iteration_fails c instance_arn ps s1 e ->
     (describe_permissions_sets c (pre ++ ps :: rest) instance_arn w).1
       = Raise e).
Proof.
  repeat split.
  - intros He. rewrite list_instances_run. apply full_listing_error, He.
  - intros He. rewrite list_accounts_run, (full_listing_error _ _ _ _ He).
    reflexivity.
  - intros He. rewrite list_users_run, (full_listing_error _ _ _ _ He).
    reflexivity.
  - intros He. rewrite list_groups_run. apply full_listing_error, He.
  - intros He. rewrite list_permission_sets_run. apply full_listing_error, He.
  - intros He.
    rewrite list_user_assignments_run, (full_listing_error _ _ _ _ He).
    reflexivity.
  - intros He. rewrite list_managed_policy_permission_set_run. simpl.
    apply full_listing_error, He.
  - intros pre ps rest lookup1 s1 Hpre Hfail.
    rewrite describe_permissions_sets_run, describe_loop_app.
    set (w0 := (w.1, _)).
    assert (describe_loop c instance_arn pre ∅ w0 = (Return lookup1, (s1, w0.2)))
      as -> by (apply describe_loop_Return; split; [exact Hpre|reflexivity]).
    simpl describe_loop. apply bind_fst_Raise, describe_one_fails, Hfail.
Qed.

Lemma remote_errors_propagate_witness :
  (list_groups failing "d-1234567890" (0, [])).1
    = Raise (OtherError "ThrottlingException") /\
  (describe_permissions_sets failing ["arn:A"; "arn:B"; "arn:C"]
     "arn:instance" (0, [])).1
    = Raise (OtherError "AccessDeniedException").
Proof.
  split.
  - apply (remote_errors_propagate failing "d-1234567890" "arn:instance"
             "u-123" "arn:A" (0, []) (OtherError "ThrottlingException")).
    reflexivity.
  - destruct (remote_errors_propagate failing "d-1234567890" "arn:instance"
             "u-123" "arn:A" (0, []) (OtherError "AccessDeniedException"))
      as (_ & _ & _ & _ & _ & _ & _ & Hloop).
    apply (Hloop ["arn:A"] "arn:B" ["arn:C"]
             {["arn:A" := enriched (description_of "arn:A") (VStr "")
                            (VBool false) []]} 4).
    + apply (describe_loop_Return failing "arn:instance" ["arn:A"] ∅
               (0, []) _ (4, [])). reflexivity.
    + apply (fails_boundary failing "arn:instance" "arn:B" 4
               (OtherError "AccessDeniedException")
               {["PermissionSet" := description_of "arn:B"]}
               (description_of "arn:B") 5
               {["InlinePolicy" := VStr ""]} (VStr "") 6 7);
        [reflexivity | reflexivity | reflexivity | reflexivity
        | reflexivity | discriminate].
Defined.

(** * Further properties *)

(** ** Listers: what is printed, what is raised *)

Lemma list_accounts_world {S} (c : client S) w :
  list_accounts c w =
    match full_listing (paginate c "list_accounts" []) "Accounts" w.1 with
    | Return accounts =>
        match dict_by "Id" accounts ∅ with
        | Return account_lookup =>
            (Return account_lookup,
             ((paginate c "list_accounts" [] w.1).2,
              (w.2 ++ ["Looking up Accounts in your Organization...";
                       "Total Accounts in Organization: "
                       +:+ pretty (length accounts)])%list))
        | Raise e =>
            (Raise e,
             ((paginate c "list_accounts" [] w.1).2,
              (w.2 ++ ["Looking up Accounts in your Organization..."])%list))
        end
    | Raise e =>
        (Raise e,
         ((paginate c "list_accounts" [] w.1).2,
          (w.2 ++ ["Looking up Accounts in your Organization..."])%list))
    end.
Proof.
  unfold list_accounts, bind, print, lift, ret.
  rewrite paginate_all_full_listing. cbn [fst snd].
  destruct (full_listing _ _ _) as [accounts|e]; [|reflexivity].
  destruct (dict_by _ _ _); [|reflexivity].
  rewrite <- app_assoc. reflexivity.
Qed.

Lemma list_users_world {S} (c : client S) identity_store_id w :
  list_users c identity_store_id w =
    match full_listing
            (paginate c "list_users" [("IdentityStoreId", identity_store_id)])
            "Users" w.1 with
    | Return users =>
        match dict_by "UserId" users ∅ with
        | Return user_lookup =>
            (Return user_lookup,
             ((paginate c "list_users"
                 [("IdentityStoreId", identity_store_id)] w.1).2,
              (w.2 ++ ["Looking up users in Identity store: "
                       +:+ identity_store_id;
                       "Total Users in Identity store " +:+ identity_store_id
                       +:+ " : " +:+ pretty (length users)])%list))
        | Raise e =>
            (Raise e,
             ((paginate c "list_users"
                 [("IdentityStoreId", identity_store_id)] w.1).2,
              (w.2 ++ ["Looking up users in Identity store: "
                       +:+ identity_store_id])%list))
        end
    | Raise e =>
        (Raise e,
         ((paginate c "list_users"
             [("IdentityStoreId", identity_store_id)] w.1).2,
          (w.2 ++ ["Looking up users in Identity store: "
                   +:+ identity_store_id])%list))
    end.
Proof.
  unfold list_users, bind, print, lift, ret.
  rewrite paginate_all_full_listing. cbn [fst snd].
  destruct (full_listing _ _ _) as [users|e]; [|reflexivity].
  destruct (dict_by _ _ _); [|reflexivity].
  rewrite <- app_assoc. reflexivity.
Qed.

Lemma length_remove_dups_le (ks : list pykey) :
  length (remove_dups ks) <= length ks.
Proof.
  induction ks as [|k ks IH]; simpl; [lia|].
  destruct (decide_rel elem_of k ks); simpl; lia.
Qed.

Lemma dict_by_size_le key items m :
  dict_by key items ∅ = Return m -> size m <= length items.
Proof.
  intros H. destruct (dict_by_last_wins _ _ _ H) as (_ & -> & <-).
  apply length_remove_dups_le.
Qed.

(** X1: when a mapping lister returns, it has printed two lines, the second
    giving the number of records the service listed; the mapping has at most
    that many entries. *)
Theorem printed_total_counts_records {S} (c : client S)
    (identity_store_id : string) (w : world S) :
  (forall account_lookup w',
     list_accounts c w = (Return account_lookup, w') ->
     exists accounts,
       full_listing (paginate c "list_accounts" []) "Accounts" w.1
         = Return accounts /\
       w'.2 = (w.2 ++ ["Looking up Accounts in your Organization...";
                       "Total Accounts in Organization: "
                       +:+ pretty (length accounts)])%list /\
       size account_lookup <= length accounts) /\
  (forall user_lookup w',
     list_users c identity_store_id w = (Return user_lookup, w') ->
     exists users,
       full_listing
         (paginate c "list_users" [("IdentityStoreId", identity_store_id)])
         "Users" w.1 = Return users /\
       w'.2 = (w.2 ++ ["Looking up users in Identity store: "
                       +:+ identity_store_id;
                       "Total Users in Identity store " +:+ identity_store_id
                       +:+ " : " +:+ pretty (length users)])%list /\
       size user_lookup <= length users).
Proof.
  split.
  - intros m w'. rewrite list_accounts_world.
    destruct (full_listing _ _ _) as [accounts|e]; [|discriminate].
    destruct (dict_by _ _ _) as [m'|e] eqn:Hd; [|discriminate].
    intros [= <- <-]. exists accounts.
    split; [reflexivity|]. split; [reflexivity|].
    apply (dict_by_size_le _ _ _ Hd).
  - intros m w'. rewrite list_users_world.
    destruct (full_listing _ _ _) as [users|e]; [|discriminate].
    destruct (dict_by _ _ _) as [m'|e] eqn:Hd; [|discriminate].
    intros [= <- <-]. exists users.
    split; [reflexivity|]. split; [reflexivity|].
    apply (dict_by_size_le _ _ _ Hd).
Qed.

Lemma printed_total_counts_records_witness :
  exists accounts,
    full_listing (paginate repeating "list_accounts" []) "Accounts" 0
      = Return accounts /\
    ["Looking up Accounts in your Organization...";
     "Total Accounts in Organization: 2"]
      = ([] ++ ["Looking up Accounts in your Organization...";
                "Total Accounts in Organization: "
                +:+ pretty (length accounts)])%list /\
    size ({[KStr "111111111111" := account_a_renamed]} : gmap pykey record)
      <= length accounts.
Proof.
  destruct (printed_total_counts_records repeating "d-1234567890" (0, []))
    as [Haccounts _].
  apply (Haccounts {[KStr "111111111111" := account_a_renamed]}
           (2, ["Looking up Accounts in your Organization...";
                "Total Accounts in Organization: 2"])).
  reflexivity.
Defined.

Lemma item_key_missing key item :
  item !! key = None -> item_key key item = Raise (KeyError key).
Proof. unfold item_key, subscript. intros ->. reflexivity. Qed.

Lemma item_key_unhashable key item v e :
  item !! key = Some v -> to_key v = Raise e -> item_key key item = Raise e.
Proof. unfold item_key, subscript. intros -> ->. reflexivity. Qed.

Lemma dict_by_Return_all key items : forall acc m,
  dict_by key items acc = Return m -> Forall (identified key) items.
Proof.
  induction items as [|item rest IH]; intros acc m; simpl.
  - constructor.
  - destruct (item_key key item) as [k|e] eqn:Hk; [|discriminate].
    intros Hm. constructor; [exists k; exact Hk|apply (IH _ _ Hm)].
Qed.

Lemma dict_by_all_Return key items : forall acc,
  Forall (identified key) items -> exists m, dict_by key items acc = Return m.
Proof.
  induction items as [|item rest IH]; intros acc Hall; simpl.
  - eauto.
  - inversion Hall as [|? ? [k Hk] Hrest]; subst. rewrite Hk. apply IH, Hrest.
Qed.

Lemma dict_by_first_error key pre item rest e : forall acc,
  Forall (identified key) pre ->
  item_key key item = Raise e ->
  dict_by key (pre ++ item :: rest) acc = Raise e.
Proof.
  induction pre as [|u pre IH]; intros acc Hall Hitem; simpl.
  - rewrite Hitem. reflexivity.
  - inversion Hall as [|? ? [k Hk] Hpre]; subst. rewrite Hk.
    apply IH; assumption.
Qed.

(** X2: a mapping lister returns a mapping exactly when every listed record
    has a hashable identifier.  Otherwise it raises the error of the first
    record that has none, [KeyError] when the field is missing, after the
    first progress line and without the line that gives the total. *)
Theorem identifier_errors {S} (c : client S) (identity_store_id : string)
    (w : world S) :
  (forall accounts,
     full_listing (paginate c "list_accounts" []) "Accounts" w.1
       = Return accounts ->
     ((exists account_lookup w',
         list_accounts c w = (Return account_lookup, w')) <->
      Forall (identified "Id") accounts) /\
     (forall pre item rest e,
        accounts = (pre ++ item :: rest)%list ->
        Forall (identified "Id") pre ->
        item !! "Id" = None /\ e = KeyError "Id" \/
        (exists v, item !! "Id" = Some v /\ to_key v = Raise e) ->
        list_accounts c w =
          (Raise e,
           ((paginate c "list_accounts" [] w.1).2,
            (w.2 ++ ["Looking up Accounts in your Organization..."])%list)))) /\
  (forall users,
     full_listing
       (paginate c "list_users" [("IdentityStoreId", identity_store_id)])
       "Users" w.1 = Return users ->
     ((exists user_lookup w',
         list_users c identity_store_id w = (Return user_lookup, w')) <->
      Forall (identified "UserId") users) /\
     (forall pre item rest e,
        users = (pre ++ item :: rest)%list ->
        Forall (identified "UserId") pre ->
        item !! "UserId" = None /\ e = KeyError "UserId" \/
        (exists v, item !! "UserId" = Some v /\ to_key v = Raise e) ->
        list_users c identity_store_id w =
          (Raise e,
           ((paginate c "list_users"
               [("IdentityStoreId", identity_store_id)] w.1).2,
            (w.2 ++ ["Looking up users in Identity store: "
                     +:+ identity_store_id])%list)))).
Proof.
  split.
  - intros accounts Hl. split; [split|].
    + intros (m & w' & Hrun). rewrite list_accounts_world, Hl in Hrun.
      destruct (dict_by _ _ _) as [m'|e] eqn:Hd; [|discriminate].
      apply (dict_by_Return_all _ _ _ _ Hd).
    + intros Hall. rewrite list_accounts_world, Hl.
      destruct (dict_by_all_Return "Id" accounts ∅ Hall) as [m ->]. eauto.
    + intros pre item rest e -> Hpre Hitem.
      rewrite list_accounts_world, Hl.
      rewrite (dict_by_first_error "Id" pre item rest e); [reflexivity|exact Hpre|].
      destruct Hitem as [[Hnone ->]|(v & Hv & He)].
      * apply item_key_missing, Hnone.
      * apply (item_key_unhashable _ _ _ _ Hv He).
  - intros users Hl. split; [split|].
    + intros (m & w' & Hrun). rewrite list_users_world, Hl in Hrun.
      destruct (dict_by _ _ _) as [m'|e] eqn:Hd; [|discriminate].
      apply (dict_by_Return_all _ _ _ _ Hd).
    + intros Hall. rewrite list_users_world, Hl.
      destruct (dict_by_all_Return "UserId" users ∅ Hall) as [m ->]. eauto.
    + intros pre item rest e -> Hpre Hitem.
      rewrite list_users_world, Hl.
      rewrite (dict_by_first_error "UserId" pre item rest e);
        [reflexivity|exact Hpre|].
      destruct Hitem as [[Hnone ->]|(v & Hv & He)].
      * apply item_key_missing, Hnone.
      * apply (item_key_unhashable _ _ _ _ Hv He).
Qed.

Lemma identifier_errors_witness :
  list_accounts incomplete (0, []) =
    (Raise (KeyError "Id"),
     (1, ["Looking up Accounts in your Organization..."])).
Proof.
  destruct (identifier_errors incomplete "d-1234567890" (0, []))
    as [Haccounts _].
  destruct (Haccounts [account_a; account_nameless; account_b])
    as [_ Herror]; [reflexivity|].
  apply (Herror [account_a] account_nameless [account_b] (KeyError "Id")).
  - reflexivity.
  - repeat constructor. exists (KStr "111111111111"). reflexivity.
  - left. split; reflexivity.
Defined.

(** X3: a mapping lister neither alters nor drops information silently:
    every value of the returned mapping is one of the listed records, and the
    identifier of every listed record is a key of the mapping. *)
Theorem lookup_entries_are_listed_records {S} (c : client S)
    (identity_store_id : string) (w : world S) :
  (forall account_lookup w',
     list_accounts c w = (Return account_lookup, w') ->
     exists accounts,
       full_listing (paginate c "list_accounts" []) "Accounts" w.1
         = Return accounts /\
       (forall k r, account_lookup !! k = Some r -> r ∈ accounts) /\
       (forall u, u ∈ accounts ->
          exists k, item_key "Id" u = Return k /\
                    is_Some (account_lookup !! k))) /\
  (forall user_lookup w',
     list_users c identity_store_id w = (Return user_lookup, w') ->
     exists users,
       full_listing
         (paginate c "list_users" [("IdentityStoreId", identity_store_id)])
         "Users" w.1 = Return users /\
       (forall k r, user_lookup !! k = Some r -> r ∈ users) /\
       (forall u, u ∈ users ->
          exists k, item_key "UserId" u = Return k /\
                    is_Some (user_lookup !! k))).
Proof.
  assert (forall key items m,
            dict_by key items ∅ = Return m ->
            (forall k r, m !! k = Some r -> r ∈ items) /\
            (forall u, u ∈ items ->
               exists k, item_key key u = Return k /\ is_Some (m !! k)))
    as Hcore.
  { intros key items m Hd. split.
    - intros k r. rewrite (dict_by_lookup _ _ _ _ Hd k), lookup_empty.
      destruct (last _) as [r'|] eqn:Hlast; [|discriminate].
      intros [= <-]. apply last_Some_elem_of in Hlast.
      apply list_elem_of_filter in Hlast as [_ Hin]. exact Hin.
    - intros u Hin.
      pose proof (dict_by_Return_all _ _ _ _ Hd) as Hall.
      rewrite Forall_forall in Hall. destruct (Hall u Hin) as [k Hk].
      exists k. split; [exact Hk|].
      apply (elem_of_dom (D:=gset pykey)).
      destruct (dict_by_dom _ _ _ _ Hd) as [-> _].
      apply elem_of_union_l, elem_of_list_to_set, list_elem_of_omap.
      exists u. rewrite Hk. auto. }
  split.
  - intros m w' H. apply list_accounts_Return in H as (accounts & Hl & Hd).
    exists accounts. split; [exact Hl|]. apply Hcore, Hd.
  - intros m w' H. apply list_users_Return in H as (users & Hl & Hd).
    exists users. split; [exact Hl|]. apply Hcore, Hd.
Qed.

Lemma lookup_entries_are_listed_records_witness :
  exists users,
    full_listing
      (paginate sample "list_users" [("IdentityStoreId", "d-1234567890")])
      "Users" 0 = Return users /\
    (forall k r,
       (<[KStr "u-123" := user_alice_again]>
          (<[KStr "u-456" := user_bob]> ∅) : gmap pykey record) !! k = Some r ->
       r ∈ users) /\
    (forall u, u ∈ users ->
       exists k, item_key "UserId" u = Return k /\
                 is_Some ((<[KStr "u-123" := user_alice_again]>
                             (<[KStr "u-456" := user_bob]> ∅)
                           : gmap pykey record) !! k)).
Proof.
  destruct (lookup_entries_are_listed_records sample "d-1234567890" (0, []))
    as [_ Husers].
  apply (Husers _ (2, ["Looking up users in Identity store: d-1234567890";
                       "Total Users in Identity store d-1234567890 : 3"])).
  reflexivity.
Defined.

(** X4: the listers of instances, groups, assignments and managed policies
    print nothing, whether they return or raise; [list_permission_sets]
    prints one line, the number of permission sets, and only when the listing
    completed. *)
Theorem lister_output {S} (c : client S)
    (identity_store_id instance_arn user_id permission_set_arn : string)
    (w : world S) :
  (list_instances c w).2.2 = w.2 /\
  (list_groups c identity_store_id w).2.2 = w.2 /\
  (list_user_assignments c user_id instance_arn w).2.2 = w.2 /\
  (list_managed_policy_permission_set c permission_set_arn instance_arn w).2.2
    = w.2 /\
  (list_permission_sets c instance_arn w).2.2 =
    match (list_permission_sets c instance_arn w).1 with
    | Return permission_sets =>
        (w.2 ++ ["Total permission sets found in Organization: "
                 +:+ pretty (length permission_sets)])%list
    | Raise _ => w.2
    end.
Proof.
  repeat split.
  - unfold list_instances, bind, ret. rewrite paginate_all_full_listing.
    destruct (full_listing _ _ _); reflexivity.
  - unfold list_groups, bind, ret. rewrite paginate_all_full_listing.
    destruct (full_listing _ _ _); reflexivity.
  - unfold list_user_assignments, bind, ret. rewrite paginate_all_full_listing.
    destruct (full_listing _ _ _); reflexivity.
  - rewrite list_managed_policy_permission_set_run. reflexivity.
  - unfold list_permission_sets, bind, ret, print.
    rewrite paginate_all_full_listing.
    destruct (full_listing _ _ _); reflexivity.
Qed.

(** ** The aggregator: output, contents of the records, composition *)

Section aggregator_more.

Context {S : Type} (c : client S) (instance_arn : string).

Lemma describe_one_stdout ps lookup w :
  (describe_one c instance_arn ps lookup w).2.2 = w.2.
Proof.
  rewrite describe_one_run.
  destruct (describe_permission_set c _ w.1) as [[resp|?] s1]; [|reflexivity].
  destruct (resp !! "PermissionSet"); [|reflexivity].
  destruct (get_inline_policy_for_permission_set c _ s1) as [[iresp|?] s2];
    [|reflexivity].
  destruct (iresp !! "InlinePolicy"); [|reflexivity].
  destruct (boundary_lookup c _ s2) as [[pb|?] s3]; [|reflexivity].
  destruct (full_listing _ _ s3); reflexivity.
Qed.

Lemma describe_loop_stdout pss : forall lookup w,
  (describe_loop c instance_arn pss lookup w).2.2 = w.2.
Proof.
  induction pss as [|ps pss IH]; intros lookup w; simpl.
  - reflexivity.
  - unfold bind. pose proof (describe_one_stdout ps lookup w) as Hone.
    destruct (describe_one c instance_arn ps lookup w) as [[l1|e] w1].
    + rewrite IH. exact Hone.
    + exact Hone.
Qed.

Lemma processed_app l1 l2 s lookup lookup' s' :
  processed c instance_arn (l1 ++ l2) s lookup lookup' s' <->
  exists lookup1 s1,
    processed c instance_arn l1 s lookup lookup1 s1 /\
    processed c instance_arn l2 s1 lookup1 lookup' s'.
Proof.
  revert s lookup. induction l1 as [|ps l1 IH]; intros s lookup; simpl.
  - split.
    + intros H. exists lookup, s. split; [constructor|exact H].
    + intros (lookup1 & s1 & H1 & H2). inversion H1; subst. exact H2.
  - split.
    + intros H. inversion H as [|? ? ? r s0 ? ? ? Hit Hp]; subst.
      apply IH in Hp as (lookup1 & s1 & H1 & H2).
      exists lookup1, s1. split; [econstructor; eassumption|exact H2].
    + intros (lookup1 & s1 & H1 & H2).
      inversion H1 as [|? ? ? r s0 ? ? ? Hit Hp]; subst.
      econstructor; [exact Hit|]. apply IH. eauto.
Qed.

(** Iterations leave the records of other permission sets alone. *)
Lemma processed_frame pss s lookup lookup' s' ps :
  processed c instance_arn pss s lookup lookup' s' ->
  ps ∉ pss -> lookup' !! ps = lookup !! ps.
Proof.
  induction 1 as [|ps0 pss s r s1 lookup lookup' s' _ _ IH]; intros Hnotin.
  - reflexivity.
  - apply not_elem_of_cons in Hnotin as [Hne Hnotin].
    rewrite (IH Hnotin). apply lookup_insert_ne. congruence.
Qed.

Lemma raises_after_prefix pre ps rest w lookup1 s1 e :
  processed c instance_arn pre w.1 ∅ lookup1 s1 ->
  (forall out, (describe_one c instance_arn ps lookup1 (s1, out)).1 = Raise e) ->
  (describe_permissions_sets c (pre ++ ps :: rest) instance_arn w).1 = Raise e.
Proof.
  intros Hpre Hone.
  rewrite describe_permissions_sets_run, describe_loop_app.
  set (w0 := (w.1, _)).
  assert (describe_loop c instance_arn pre ∅ w0 = (Return lookup1, (s1, w0.2)))
    as -> by (apply describe_loop_Return; split; [exact Hpre|reflexivity]).
  simpl describe_loop. apply bind_fst_Raise, Hone.
Qed.

Lemma enriched_other d ip pb mp field :
  field <> "inline_policy" -> field <> "permission_boundary" ->
  field <> "managed_policies " ->
  enriched d ip pb mp !! field = d !! field.
Proof.
  intros H1 H2 H3. unfold enriched.
  rewrite lookup_insert_ne by congruence.
  destruct (negb (truthy pb)).
  - rewrite !lookup_insert_ne by congruence. reflexivity.
  - rewrite lookup_insert_ne by congruence. reflexivity.
Qed.

End aggregator_more.

(** X5: [describe_permissions_sets] prints exactly one line, the number of
    permission sets it was given, whether it returns or raises. *)
Theorem aggregator_prints_one_line {S} (c : client S) (pss : list string)
    (instance_arn : string) (w : world S) :
  (describe_permissions_sets c pss instance_arn w).2.2 =
    (w.2 ++ ["Looking up permission set details for "
             +:+ pretty (length pss) +:+ " permission sets"])%list.
Proof.
  rewrite describe_permissions_sets_run, describe_loop_stdout. reflexivity.
Qed.

(** X6: the fields of the service's description are kept at the root of its
    record: every record of the returned mapping agrees with a description
    that the service returned for that ARN on every field other than
    [inline_policy], [permission_boundary] and [managed_policies ]. *)
Theorem description_fields_kept {S} (c : client S) (pss : list string)
    (instance_arn : string) (w w' : world S) (lookup : gmap string record) :
  describe_permissions_sets c pss instance_arn w = (Return lookup, w') ->
  forall ps r, lookup !! ps = Some r ->
    exists s resp s1 d,
      describe_permission_set c (ps_kwargs instance_arn ps) s
        = (Return resp, s1) /\
      resp !! "PermissionSet" = Some d /\
      forall field,
        field <> "inline_policy" -> field <> "permission_boundary" ->
        field <> "managed_policies " ->
        r !! field = d !! field.
Proof.
  intros Hrun. apply describe_permissions_sets_Return in Hrun as [Hp _].
  apply (processed_invariant c instance_arn
           (fun l => forall ps r, l !! ps = Some r ->
              exists s resp s1 d,
                describe_permission_set c (ps_kwargs instance_arn ps) s
                  = (Return resp, s1) /\
                resp !! "PermissionSet" = Some d /\
                forall field,
                  field <> "inline_policy" -> field <> "permission_boundary" ->
                  field <> "managed_policies " ->
                  r !! field = d !! field)
           _ _ _ _ _ Hp).
  - intros ps s0 r s1 l _ Hit Hl ps' r'.
    rewrite lookup_insert. case_decide as Heq; [|apply Hl].
    intros [= <-]. subst ps'.
    destruct Hit as (resp & d & s1' & iresp & ip & s2 & pb & s3 & mp & Hit).
    destruct Hit as (Hd & Hpd & _ & _ & _ & _ & _ & ->).
    exists s0, resp, s1', d. split; [exact Hd|]. split; [exact Hpd|].
    intros field. apply enriched_other.
  - intros ps r. rewrite lookup_empty. discriminate.
Qed.

Lemma description_fields_kept_witness :
  exists lookup w',
    describe_permissions_sets sample ["arn:A"; "arn:B"] "arn:instance" (0, [])
      = (Return lookup, w') /\
    forall ps r, lookup !! ps = Some r ->
      exists s resp s1 d,
        describe_permission_set sample (ps_kwargs "arn:instance" ps) s
          = (Return resp, s1) /\
        resp !! "PermissionSet" = Some d /\
        forall field,
          field <> "inline_policy" -> field <> "permission_boundary" ->
          field <> "managed_policies " ->
          r !! field = d !! field.
Proof.
  eexists _, _. split; [reflexivity|].
  apply (description_fields_kept sample ["arn:A"; "arn:B"] "arn:instance"
           (0, []) _ _ eq_refl).
Defined.

(** X7: a response of a per-permission-set call that lacks its output key
    makes [describe_permissions_sets] raise [KeyError] for that key.  This
    holds for the boundary call too: only "resource not found" is recovered,
    a boundary response without [PermissionsBoundary] is not read as "no
    boundary". *)
Theorem missing_output_key_raises {S} (c : client S) (instance_arn : string)
    (pre : list string) (ps : string) (rest : list string) (w : world S)
    (lookup1 : gmap string record) (s1 : S) :
  processed c instance_arn pre w.1 ∅ lookup1 s1 ->
  (forall resp s2,
     describe_permission_set c (ps_kwargs instance_arn ps) s1
       = (Return resp, s2) ->
     resp !! "PermissionSet" = None ->
     (describe_permissions_sets c (pre ++ ps :: rest) instance_arn w).1
       = Raise (KeyError "PermissionSet")) /\
  (forall resp d s2 iresp s3,
     describe_permission_set c (ps_kwargs instance_arn ps) s1
       = (Return resp, s2) ->
     resp !! "PermissionSet" = Some d ->
     get_inline_policy_for_permission_set c (ps_kwargs instance_arn ps) s2
       = (Return iresp, s3) ->
     iresp !! "InlinePolicy" = None ->
     (describe_permissions_sets c (pre ++ ps :: rest) instance_arn w).1
       = Raise (KeyError "InlinePolicy")) /\
  (forall resp d s2 iresp ip s3 bresp s4,
     describe_permission_set c (ps_kwargs instance_arn ps) s1
       = (Return resp, s2) ->
     resp !! "PermissionSet" = Some d ->
     get_inline_policy_for_permission_set c (ps_kwargs instance_arn ps) s2
       = (Return iresp, s3) ->
     iresp !! "InlinePolicy" = Some ip ->
     get_permissions_boundary_for_permission_set c
       (ps_kwargs instance_arn ps) s3 = (Return bresp, s4) ->
     bresp !! "PermissionsBoundary" = None ->
     (describe_permissions_sets c (pre ++ ps :: rest) instance_arn w).1
       = Raise (KeyError "PermissionsBoundary")).
Proof.
  intros Hpre. repeat split.
  - intros resp s2 Hd Hpd. apply (raises_after_prefix _ _ _ _ _ _ _ _ _ Hpre).
    intros out. rewrite describe_one_run. cbn [fst snd].
    rewrite Hd, Hpd. reflexivity.
  - intros resp d s2 iresp s3 Hd Hpd Hi Hpi.
    apply (raises_after_prefix _ _ _ _ _ _ _ _ _ Hpre).
    intros out. rewrite describe_one_run. cbn [fst snd].
    rewrite Hd, Hpd, Hi, Hpi. reflexivity.
  - intros resp d s2 iresp ip s3 bresp s4 Hd Hpd Hi Hpi Hb Hpb.
    apply (raises_after_prefix _ _ _ _ _ _ _ _ _ Hpre).
    intros out. rewrite describe_one_run. cbn [fst snd].
    rewrite Hd, Hpd, Hi, Hpi. unfold boundary_lookup, subscript.
    rewrite Hb, Hpb. reflexivity.
Qed.

Lemma missing_output_key_raises_witness :
  (describe_permissions_sets keyless ["arn:A"; "arn:B"; "arn:C"]
     "arn:instance" (0, [])).1
    = Raise (KeyError "PermissionsBoundary").
Proof.
  destruct (missing_output_key_raises keyless "arn:instance" ["arn:A"] "arn:B"
              ["arn:C"] (0, [])
              {["arn:A" := enriched (description_of "arn:A") (VStr "")
                             (VBool false) []]} 4)
    as (_ & _ & Hboundary).
  - apply (describe_loop_Return keyless "arn:instance" ["arn:A"] ∅
             (0, []) _ (4, [])). reflexivity.
  - apply (Hboundary {["PermissionSet" := description_of "arn:B"]}
             (description_of "arn:B") 5
             {["InlinePolicy" := VStr ""]} (VStr "") 6 ∅ 7);
      reflexivity.
Defined.

(** X8: aggregating [l1 ++ l2] is aggregating [l1] and then going on with
    [l2] from the lookup and the service state that this leaves; the records
    of permission sets that do not occur in [l2] are those of the run on
    [l1]. *)
Theorem aggregation_composes {S} (c : client S) (l1 l2 : list string)
    (instance_arn : string) (w w' : world S) (lookup : gmap string record) :
  describe_permissions_sets c (l1 ++ l2) instance_arn w = (Return lookup, w') ->
  exists lookup1 w1,
    describe_permissions_sets c l1 instance_arn w = (Return lookup1, w1) /\
    processed c instance_arn l2 w1.1 lookup1 lookup w'.1 /\
    forall ps, ps ∉ l2 -> lookup !! ps = lookup1 !! ps.
Proof.
  intros Hrun. apply describe_permissions_sets_Return in Hrun as [Hp _].
  apply processed_app in Hp as (lookup1 & s1 & Hp1 & Hp2).
  exists lookup1,
    (s1, (w.2 ++ ["Looking up permission set details for "
                  +:+ pretty (length l1) +:+ " permission sets"])%list).
  split; [apply describe_permissions_sets_Return; auto|].
  split; [exact Hp2|].
  intros ps Hnotin. apply (processed_frame _ _ _ _ _ _ _ _ Hp2 Hnotin).
Qed.

Lemma aggregation_composes_witness :
  exists lookup1 w1,
    describe_permissions_sets sample ["arn:A"] "arn:instance" (0, [])
      = (Return lookup1, w1) /\
    (<["arn:A" := enriched (description_of "arn:A") (VStr "") (VBool false) []]>
       (<["arn:B" := enriched (description_of "arn:B") (VStr "")
                       boundary_policy [policy_readonly]]> ∅)
     : gmap string record) !! "arn:A" = lookup1 !! "arn:A".
Proof.
  destruct (aggregation_composes sample ["arn:A"] ["arn:B"] "arn:instance"
              (0, [])
              (8, ["Looking up permission set details for 2 permission sets"])
              (<["arn:A" := enriched (description_of "arn:A") (VStr "")
                              (VBool false) []]>
                 (<["arn:B" := enriched (description_of "arn:B") (VStr "")
                                 boundary_policy [policy_readonly]]> ∅)))
    as (lookup1 & w1 & Hrun1 & _ & Hframe); [reflexivity|].
  exists lookup1, w1. split; [exact Hrun1|].
  apply Hframe. intros Hin%list_elem_of_singleton. discriminate.
Defined.

(** X9: when an ARN is given several times, its record is the one built by
    the iteration of its last occurrence, from what the service answered
    then; nothing of the earlier records for that ARN is left. *)
Theorem last_occurrence_wins {S} (c : client S) (pre : list string)
    (ps : string) (rest : list string) (instance_arn : string)
    (w w' : world S) (lookup : gmap string record) :
  describe_permissions_sets c (pre ++ ps :: rest) instance_arn w
    = (Return lookup, w') ->
  ps ∉ rest ->
  exists lookup1 w1 r s2,
    describe_permissions_sets c pre instance_arn w = (Return lookup1, w1) /\
    iteration c instance_arn ps w1.1 r s2 /\
    lookup !! ps = Some r.
Proof.
  intros Hrun Hnotin. apply describe_permissions_sets_Return in Hrun as [Hp _].
  apply processed_app in Hp as (lookup1 & s1 & Hp1 & Hp2).
  inversion Hp2 as [|? ? ? r s2 ? ? ? Hit Hrest]; subst.
  exists lookup1,
    (s1, (w.2 ++ ["Looking up permission set details for "
                  +:+ pretty (length pre) +:+ " permission sets"])%list),
    r, s2.
  split; [apply describe_permissions_sets_Return; auto|].
  split; [exact Hit|].
  rewrite (processed_frame _ _ _ _ _ _ _ _ Hrest Hnotin).
  apply lookup_insert_eq.
Qed.

Lemma last_occurrence_wins_witness :
  exists lookup1 w1 r s2,
    describe_permissions_sets sample ["arn:A"; "arn:B"] "arn:instance" (0, [])
      = (Return lookup1, w1) /\
    iteration sample "arn:instance" "arn:A" w1.1 r s2 /\
    (<["arn:A" := enriched (description_of "arn:A") (VStr "") (VBool false) []]>
       (<["arn:B" := enriched (description_of "arn:B") (VStr "")
                       boundary_policy [policy_readonly]]> ∅)
     : gmap string record) !! "arn:A" = Some r.
Proof.
  apply (last_occurrence_wins sample ["arn:A"; "arn:B"] "arn:A" []
           "arn:instance" (0, [])
           (12, ["Looking up permission set details for 3 permission sets"])).
  - reflexivity.
  - apply not_elem_of_nil.
Defined.

(** X10: a falsy boundary returned by the service is stored as it is: the
    record's [permission_boundary] is that value (an empty object, say), not
    [False]. *)
Theorem falsy_boundary_stored_as_returned {S} (c : client S)
    (pss : list string) (instance_arn : string) (w w' : world S)
    (lookup : gmap string record) (ps : string) (v : value) :
  describe_permissions_sets c pss instance_arn w = (Return lookup, w') ->
  ps ∈ pss ->
  boundary_falsy c instance_arn ps v ->
  exists r, lookup !! ps = Some r /\ r !! "permission_boundary" = Some v.
Proof.
  intros Hrun Hin Hfalsy.
  apply describe_permissions_sets_Return in Hrun as [Hp _].
  assert (ps ∈ dom lookup) as [r Hr]%elem_of_dom
    by (rewrite (processed_dom _ _ _ _ _ _ _ Hp); set_solver).
  exists r. split; [exact Hr|]. revert r Hr.
  apply (processed_invariant c instance_arn
           (fun l => forall r, l !! ps = Some r ->
              r !! "permission_boundary" = Some v)
           _ _ _ _ _ Hp).
  - intros ps0 s0 r s1 l _ Hit Hl r'.
    rewrite lookup_insert. case_decide as Heq; [|apply Hl].
    intros [= <-]. subst ps0.
    destruct Hit as (resp & d & s1' & iresp & ip & s2 & pb & s3 & mp & Hit).
    destruct Hit as (_ & _ & _ & _ & Hb & _ & _ & ->).
    destruct (Hfalsy s2) as (bresp & s3' & Hcall & Hv & Hfalse).
    rewrite (boundary_lookup_value _ _ _ _ _ _ Hcall Hv) in Hb.
    injection Hb as <- _. rewrite enriched_boundary, Hfalse. reflexivity.
  - intros r. rewrite lookup_empty. discriminate.
Qed.

Lemma unset_boundary_falsy instance_arn :
  boundary_falsy unset instance_arn "arn:B" (VDict ∅).
Proof.
  intros s. eexists _, _. split; [reflexivity|].
  split; [apply lookup_singleton_eq|reflexivity].
Qed.

Lemma falsy_boundary_stored_as_returned_witness :
  exists lookup w',
    describe_permissions_sets unset ["arn:A"; "arn:B"] "arn:instance" (0, [])
      = (Return lookup, w') /\
    exists r, lookup !! "arn:B" = Some r /\
              r !! "permission_boundary" = Some (VDict ∅).
Proof.
  eexists _, _. split; [reflexivity|].
  apply (falsy_boundary_stored_as_returned unset ["arn:A"; "arn:B"]
           "arn:instance" (0, []) _ _ "arn:B" (VDict ∅) eq_refl).
  - apply list_elem_of_further, list_elem_of_here.
  - apply unset_boundary_falsy.
Defined.
